(** * FermatPrimalityC: a shallow embedding of [main.c]

    The program scans the integers [1 .. MAX_VAL] in chunks, runs a
    randomized Fermat test on each of them with GMP, and cross-checks every
    "probably prime" answer against a sorted list of Carmichael numbers
    loaded from a file.

    Conventions of the embedding.
    - [uint64_t] and [size_t] values are [Z] with the wrap-around modulo
      [2^64] written out ([u64]); [mpz_t] values are unbounded [Z].
    - C [int] used as a truth value stays a [Z] (0 or 1), C [bool] is [bool].
    - The global variables, the GMP random state and the output file are the
      fields of a [world] that is threaded through every function.
    - [do ... while] and [while] loops whose trip count is not bounded by
      their text take a [fuel] argument and stop with [OutOfFuel] when it is
      used up; the theorems say when that cannot happen.
    - Two ghost fields record the calls of the sampler and of the oracle, so
      that statements such as "no lookup is performed" can be written.
    - The wall-clock measurement around the test ([elapsed_ns]) and the
      textual encoding of a CSV row are left out. *)

From Stdlib Require Import ZArith List Bool Lia.
From Stdlib Require Import Zmod.ZmodInv.
Import ListNotations.
Local Open Scope Z_scope.

(** ** Machine integers *)

Definition u64 (z : Z) : Z := z mod 2 ^ 64.

(** [__builtin_clzll] on a non-zero 64-bit value. *)
Definition clzll (x : Z) : Z := 63 - Z.log2 x.

(** ** The GMP random state

    [gmp_randstate_t] is opaque to the program.  All the program relies on is
    the documented contract of [mpz_urandomm]: the value drawn for a positive
    bound [n] lies in [0 .. n-1]. *)

Class RandState (R : Type) : Type := {
  mpz_urandomm : R -> Z -> Z * R;
  mpz_urandomm_range :
    forall (s : R) (n : Z), 0 < n -> 0 <= fst (mpz_urandomm s n) < n
}.

(** A scripted generator: the state is the list of raw values still to be
    handed out, each reduced modulo the bound; an exhausted script yields 0. *)
Definition script_urandomm (s : list Z) (n : Z) : Z * list Z :=
  match s with
  | [] => (0 mod n, [])
  | x :: s' => (x mod n, s')
  end.

#[export] Instance script_rand : RandState (list Z) := {
  mpz_urandomm := script_urandomm;
  mpz_urandomm_range := fun s n Hn =>
    match s with
    | [] => Z.mod_pos_bound 0 n Hn
    | x :: _ => Z.mod_pos_bound x n Hn
    end
}.

(** ** Results and the state monad *)

Inductive failure : Type :=
| Exit (code : Z)      (* [exit(code)] *)
| OutOfFuel            (* a loop used up its fuel: the run is still going *)
| DivByZero            (* GMP's division-by-zero trap *)
| OutOfBounds.         (* an array read outside the initialised elements *)

Inductive outcome (W A : Type) : Type :=
| Ok (a : A) (w : W)
| Stop (f : failure) (w : W).

Arguments Ok {W A} a w.
Arguments Stop {W A} f w.

Definition M (W A : Type) : Type := W -> outcome W A.

Definition ret {W A} (a : A) : M W A := fun w => Ok a w.

Definition bind {W A B} (m : M W A) (f : A -> M W B) : M W B :=
  fun w => match m w with
           | Ok a w' => f a w'
           | Stop e w' => Stop e w'
           end.

Declare Scope prog_scope.
Delimit Scope prog_scope with prog.
Notation "x <- m ;; k" := (bind m (fun x => k))
  (at level 100, m at next level, right associativity) : prog_scope.
Notation "' p <- m ;; k" := (bind m (fun p => k))
  (at level 100, p pattern, m at next level, right associativity) : prog_scope.
Notation "m ;;; k" := (bind m (fun _ => k))
  (at level 100, right associativity) : prog_scope.
Local Open Scope prog_scope.

(** ** The world *)

Inductive event : Type :=
| EvSample (n : Z)     (* [generate_random_coprime] entered with modulus [n] *)
| EvLookup (x : Z).    (* [is_carmichael] entered with argument [x] *)

(** One data row of [results.csv] (without [elapsed_ns]).  The witness column
    is empty exactly when the row is printed by the [is_prime] branch. *)
Record row : Type := {
  row_n : Z;
  row_bit_len : Z;
  row_is_prime : Z;
  row_witness : option Z;
  row_is_really_prime : Z
}.

Record world (R : Type) : Type := {
  rng : R;                       (* [gmp_randstate_t state] *)
  carmichael_list : list Z;      (* the initialised part of the array *)
  out : list row;                (* rows written so far, oldest first *)
  calls : list event             (* ghost: calls so far, newest first *)
}.

Arguments rng {R} w.
Arguments carmichael_list {R} w.
Arguments out {R} w.
Arguments calls {R} w.

(** [carmichael_count] is the number of initialised elements. *)
Definition carmichael_count {R} (w : world R) : Z :=
  Z.of_nat (length (carmichael_list w)).

Definition set_rng {R} (s : R) (w : world R) : world R :=
  {| rng := s; carmichael_list := carmichael_list w;
     out := out w; calls := calls w |}.

Definition set_carmichael_list {R} (l : list Z) (w : world R) : world R :=
  {| rng := rng w; carmichael_list := l; out := out w; calls := calls w |}.

Definition add_call {R} (e : event) (w : world R) : world R :=
  {| rng := rng w; carmichael_list := carmichael_list w;
     out := out w; calls := e :: calls w |}.

Definition add_row {R} (r : row) (w : world R) : world R :=
  {| rng := rng w; carmichael_list := carmichael_list w;
     out := out w ++ [r]; calls := calls w |}.

Definition log_call {R} (e : event) : M (world R) unit :=
  fun w => Ok tt (add_call e w).

(** [fprintf(out, ...)] of one data row. *)
Definition emit {R} (r : row) : M (world R) unit :=
  fun w => Ok tt (add_row r w).

(** ** [load_carmichael] *)

Definition INITIAL_CAP : Z := 1024.

(** The file is the sequence of integers that successive [fscanf] calls
    convert; the loop ends when the sequence does or at the first value above
    [max_val].  [cap] is doubled when the array is full. *)
Fixpoint load_loop (stream : list Z) (max_val cap : Z) (acc : list Z)
  : list Z * Z :=
  match stream with
  | [] => (acc, cap)
  | x :: rest =>
      if x >? max_val then (acc, cap)
      else
        let cap' := if Z.of_nat (length acc) >=? cap then u64 (cap * 2)
                    else cap in
        load_loop rest max_val cap' (acc ++ [x])
  end.

(** [file = None] is a file that [fopen] cannot open.  The values are stored
    from index [carmichael_count] on; the function is called once, at
    start-up, when the static [carmichael_count] is 0 and the list empty. *)
Definition load_carmichael {R} (file : option (list Z)) (max_val : Z)
  : M (world R) unit :=
  fun w =>
    match file with
    | None => Stop (Exit 1) w
    | Some stream =>
        Ok tt (set_carmichael_list
                 (fst (load_loop stream max_val INITIAL_CAP (carmichael_list w)))
                 w)
    end.

(** ** [is_carmichael] *)

(** A read of [carmichael_list[i]]: defined only for an index inside the
    initialised part of the array. *)
Definition array_get (l : list Z) (i : Z) : option Z :=
  if i <? 0 then None else nth_error l (Z.to_nat i).

Fixpoint is_carmichael_loop (fuel : nat) (l : list Z) (n lo hi : Z)
  : option (option Z) :=
  (* [None]: out of fuel; [Some None]: read out of bounds; [Some (Some lo)] *)
  match fuel with
  | O => None
  | S fuel' =>
      if lo <? hi then
        let mid := Z.shiftr (u64 (lo + hi)) 1 in
        match array_get l mid with
        | None => Some None
        | Some v =>
            if v <? n then is_carmichael_loop fuel' l n (u64 (mid + 1)) hi
            else is_carmichael_loop fuel' l n lo mid
        end
      else Some (Some lo)
  end.

Definition is_carmichael {R} (fuel : nat) (n : Z) : M (world R) bool :=
  log_call (EvLookup n) ;;;
  fun w =>
    match is_carmichael_loop fuel (carmichael_list w) n 0 (carmichael_count w) with
    | None => Stop OutOfFuel w
    | Some None => Stop OutOfBounds w
    | Some (Some lo) =>
        if lo <? carmichael_count w then
          match array_get (carmichael_list w) lo with
          | None => Stop OutOfBounds w
          | Some v => Ok (v =? n) w
          end
        else Ok false w
    end.

(** ** [generate_random_coprime] *)

Section WithRandState.

Context {R : Type} {RS : RandState R}.

(** [mpz_urandomm(base, state, n)]; GMP divides by [n]. *)
Definition urandomm (n : Z) : M (world R) Z :=
  fun w =>
    if n =? 0 then Stop DivByZero w
    else let (b, s') := mpz_urandomm (rng w) n in Ok b (set_rng s' w).

Fixpoint generate_random_coprime_loop (fuel : nat) (n : Z) : M (world R) Z :=
  match fuel with
  | O => fun w => Stop OutOfFuel w
  | S fuel' =>
      base <- urandomm n ;;
      let base := if base <? 2 then base + 2
                  else if base >=? n then base mod n
                  else base in
      let g := Z.gcd base n in
      if negb (g =? 1) then generate_random_coprime_loop fuel' n
      else ret base
  end.

Definition generate_random_coprime (fuel : nat) (n : Z) : M (world R) Z :=
  log_call (EvSample n) ;;;
  generate_random_coprime_loop fuel n.

(** ** [fermat_test_gmp] *)

(** [mpz_powm(t, a, e, n)] for a modulus that is not 0 (the sampler, called
    first with the same modulus, traps on 0). *)
Definition mpz_powm (a e n : Z) : Z := a ^ e mod n.

(** The [for] loop with [iters] iterations left.  The result is the returned
    [int] and the value left in [witness]. *)
Fixpoint fermat_test_loop (fuel : nat) (n n_minus_one : Z) (iters : nat)
  : M (world R) (Z * Z) :=
  match iters with
  | O => ret (1, 0)
  | S iters' =>
      a <- generate_random_coprime fuel n ;;
      let t := mpz_powm a n_minus_one n in
      if negb (t =? 1) then ret (0, a)
      else fermat_test_loop fuel n n_minus_one iters'
  end.

Definition fermat_test_gmp (fuel : nat) (n k : Z) : M (world R) (Z * Z) :=
  let n_minus_one := n - 1 in
  fermat_test_loop fuel n n_minus_one (Z.to_nat k).

(** ** The body of the scan in [main] *)

Definition classify_candidate (fuel : nat) (k x : Z) : M (world R) unit :=
  let n := x in
  '(is_prime, witness) <- fermat_test_gmp fuel n k ;;
  let bit_len := if x =? 0 then 1 else 64 - clzll x in
  is_really_prime <-
    (if negb (is_prime =? 0)
     then c <- is_carmichael fuel x ;; ret (if c then 0 else 1)
     else ret 0) ;;
  if negb (is_prime =? 0) then
    emit {| row_n := x; row_bit_len := bit_len; row_is_prime := 1;
            row_witness := None; row_is_really_prime := is_really_prime |}
  else
    emit {| row_n := x; row_bit_len := bit_len; row_is_prime := 0;
            row_witness := Some witness;
            row_is_really_prime := is_really_prime |}.

End WithRandState.

(** ** The two nested loops of [main]

    They are written over an arbitrary loop body so that the scan order can
    be studied apart from the classification. *)

Section Scan.

Context {W : Type}.
Variable body : Z -> M W unit.

(** [for (x = start; x <= end; ++x) body(x)] *)
Fixpoint scan_chunk (fuel : nat) (x end_ : Z) : M W unit :=
  match fuel with
  | O => fun w => Stop OutOfFuel w
  | S fuel' =>
      if x <=? end_ then body x ;;; scan_chunk fuel' (u64 (x + 1)) end_
      else ret tt
  end.

(** [for (start = low; start <= MAX_VAL; start += CHUNK) { ... }] *)
Fixpoint scan_range (fuel : nat) (start MAX_VAL CHUNK : Z) : M W unit :=
  match fuel with
  | O => fun w => Stop OutOfFuel w
  | S fuel' =>
      if start <=? MAX_VAL then
        let end_ := u64 (start + CHUNK - 1) in
        let end_ := if end_ >? MAX_VAL then MAX_VAL else end_ in
        scan_chunk fuel start end_ ;;;
        scan_range fuel' (u64 (start + CHUNK)) MAX_VAL CHUNK
      else ret tt
  end.

(** The scan as the specification describes it: one pass over the integers
    of [low .. high] in ascending order, without chunks. *)
Definition candidates (low high : Z) : list Z :=
  map (fun i => low + Z.of_nat i) (seq 0 (Z.to_nat (high - low + 1))).

Fixpoint for_each (xs : list Z) : M W unit :=
  match xs with
  | [] => ret tt
  | x :: xs' => body x ;;; for_each xs'
  end.

Definition unchunked_scan (low high : Z) : M W unit :=
  for_each (candidates low high).

End Scan.

(** ** [main] *)

Section Main.

Context {R : Type} {RS : RandState R}.

(** [init_rng]: the state after seeding with [time(NULL)]. *)
Definition init_rng (seeded : R) : M (world R) unit :=
  fun w => Ok tt (set_rng seeded w).

Definition main_loop (fuel : nat) (k low MAX_VAL CHUNK : Z) : M (world R) unit :=
  scan_range (classify_candidate fuel k) fuel low MAX_VAL CHUNK.

(** [carmichael_file] is the content of [data/pureCarmichael.txt] ([None]
    when it cannot be opened), [results_ok] tells whether [results.csv] can
    be opened for writing, [seeded] is the generator state after seeding. *)
Definition main (fuel : nat) (carmichael_file : option (list Z))
    (results_ok : bool) (seeded : R) : M (world R) Z :=
  let bit_length := 32 in
  let k := 16 in
  let MAX_VAL := u64 (u64 (Z.shiftl 1 bit_length) - 1) in
  let CHUNK := 1000000 in
  load_carmichael carmichael_file MAX_VAL ;;;
  init_rng seeded ;;;
  if negb results_ok then ret 1
  else
    main_loop fuel k 1 MAX_VAL CHUNK ;;;
    ret 0.

End Main.

(** The world at program start. *)
Definition initial_world {R} (s : R) : world R :=
  {| rng := s; carmichael_list := []; out := []; calls := [] |}.

(** ** Vocabulary of the statements *)

(** A strictly ascending sequence. *)
Fixpoint ascending (l : list Z) : bool :=
  match l with
  | [] => true
  | x :: t =>
      match t with
      | [] => true
      | y :: _ => (x <? y) && ascending t
      end
  end.

(** The base the sampler derives from a raw draw [r] in [0 .. n-1]. *)
Definition shifted (r : Z) : Z := if r <? 2 then r + 2 else r.

(** The bases the sampler can hand out for the modulus [n]. *)
Definition admissible (n a : Z) : Prop :=
  Z.gcd a n = 1 /\ exists r, 0 <= r < n /\ a = shifted r.

(** The same bases as a list, and the two ways in which the verdict of the
    test for [n] does not depend on the draws. *)
Definition bases (n : Z) : list Z :=
  filter (fun a => Z.gcd a n =? 1)
         (map (fun i => shifted (Z.of_nat i)) (seq 0 (Z.to_nat n))).

Definition all_bases_pass (n : Z) : bool :=
  forallb (fun a => mpz_powm a (n - 1) n =? 1) (bases n).

Definition all_bases_fail (n : Z) : bool :=
  forallb (fun a => negb (mpz_powm a (n - 1) n =? 1)) (bases n).

(** [w'] differs from [w] at most in the generator state. *)
Definition same_store {R} (w w' : world R) : Prop :=
  carmichael_list w' = carmichael_list w /\ out w' = out w /\
  calls w' = calls w.

(** [w'] extends [w] by [j] sampler calls on the modulus [n] and differs
    otherwise at most in the generator state. *)
Definition sampled {R} (n : Z) (j : nat) (w w' : world R) : Prop :=
  carmichael_list w' = carmichael_list w /\ out w' = out w /\
  calls w' = repeat (EvSample n) j ++ calls w.

(** The leading values of a stream up to the first one above [max_val]. *)
Fixpoint prefix_upto (max_val : Z) (stream : list Z) : list Z :=
  match stream with
  | [] => []
  | x :: rest => if x >? max_val then [] else x :: prefix_upto max_val rest
  end.

(** The world in which a run ends, whether it returned or stopped. *)
Definition final {W A} (o : outcome W A) : W :=
  match o with
  | Ok _ w => w
  | Stop _ w => w
  end.

(** [w'] is [w] with rows appended and calls logged: the Carmichael list is
    the same and nothing already written or logged has changed. *)
Definition extends {R} (w w' : world R) : Prop :=
  carmichael_list w' = carmichael_list w /\
  (exists rows, out w' = out w ++ rows) /\
  (exists evs, calls w' = evs ++ calls w).

(** A computation that only ever extends the world, however it ends. *)
Definition keeps {R A} (m : M (world R) A) : Prop :=
  forall w, extends w (final (m w)).

(** A sequence in which no value is followed by a smaller one; repeated
    values are allowed. *)
Fixpoint nondecreasing (l : list Z) : bool :=
  match l with
  | [] => true
  | x :: t =>
      match t with
      | [] => true
      | y :: _ => (x <=? y) && nondecreasing t
      end
  end.

(** The generator whose draw for the bound [n] is always [n - 1]. *)
#[export] Instance top_rand : RandState unit := {
  mpz_urandomm := fun (_ : unit) (n : Z) => (n - 1, tt);
  mpz_urandomm_range := fun (_ : unit) (n : Z) (Hn : 0 < n) =>
    conj (proj1 (Z.lt_le_pred 0 n) Hn) (Z.lt_pred_l n)
}.

(** * Properties *)

(** ** Reasoning about the monad *)

Lemma bind_Ok {W A B} (m : M W A) (f : A -> M W B) (w w' : W) (b : B) :
  bind m f w = Ok b w' ->
  exists a w1, m w = Ok a w1 /\ f a w1 = Ok b w'.
Proof.
  unfold bind. destruct (m w) as [a w1|e w1]; intros H.
  - exists a, w1. split; [reflexivity | exact H].
  - discriminate H.
Qed.

Lemma bind_eq_Ok {W A B} (m : M W A) (f : A -> M W B) (w w1 : W) (a : A) :
  m w = Ok a w1 -> bind m f w = f a w1.
Proof. intros H. unfold bind. rewrite H. reflexivity. Qed.

(** ** Machine arithmetic *)

Lemma u64_small (z : Z) : 0 <= z < 2 ^ 64 -> u64 z = z.
Proof. intros H. unfold u64. apply Z.mod_small. exact H. Qed.

Lemma shiftr_1_half (z : Z) : Z.shiftr z 1 = z / 2.
Proof. rewrite Z.shiftr_div_pow2 by lia. reflexivity. Qed.

(** ** Ascending sequences *)

Lemma ascending_tail (x : Z) (t : list Z) :
  ascending (x :: t) = true -> ascending t = true.
Proof.
  destruct t as [|y t']; [reflexivity|].
  cbn [ascending]. intros H. apply andb_true_iff in H. apply H.
Qed.

Lemma ascending_head_lt (x : Z) (t : list Z) :
  ascending (x :: t) = true -> forall y, In y t -> x < y.
Proof.
  revert x. induction t as [|z t IH]; intros x H y Hy.
  - destruct Hy.
  - cbn [ascending] in H. apply andb_true_iff in H. destruct H as [Hxz Ht].
    apply Z.ltb_lt in Hxz. destruct Hy as [->|Hy]; [exact Hxz|].
    specialize (IH z Ht y Hy). lia.
Qed.

Lemma ascending_nth (l : list Z) :
  ascending l = true ->
  forall (i j : nat) (a b : Z),
    (i < j)%nat -> nth_error l i = Some a -> nth_error l j = Some b -> a < b.
Proof.
  induction l as [|x t IH]; intros Hl i j a b Hij Hi Hj.
  - destruct i; discriminate Hi.
  - destruct j as [|j]; [lia|]. destruct i as [|i].
    + injection Hi as <-. apply (ascending_head_lt x t Hl).
      apply (nth_error_In t j). exact Hj.
    + apply (IH (ascending_tail x t Hl) i j a b); [lia | exact Hi | exact Hj].
Qed.

Lemma ascending_app_l (l1 l2 : list Z) :
  ascending (l1 ++ l2) = true -> ascending l1 = true.
Proof.
  induction l1 as [|x t IH]; intros H; [reflexivity|].
  destruct t as [|y t']; [reflexivity|].
  cbn [ascending app] in *. apply andb_true_iff in H. destruct H as [Hxy Ht].
  apply andb_true_iff. split; [exact Hxy | apply IH; exact Ht].
Qed.

Lemma ascending_app_r (l1 l2 : list Z) :
  ascending (l1 ++ l2) = true -> ascending l2 = true.
Proof.
  induction l1 as [|x t IH]; intros H; [exact H|].
  apply IH. apply (ascending_tail x). exact H.
Qed.

(** ** [load_carmichael] keeps the leading values up to [max_val] *)

Lemma load_loop_prefix (stream : list Z) :
  forall (max_val cap : Z) (acc : list Z),
    fst (load_loop stream max_val cap acc) = acc ++ prefix_upto max_val stream.
Proof.
  induction stream as [|x rest IH]; intros max_val cap acc; cbn [load_loop prefix_upto].
  - rewrite app_nil_r. reflexivity.
  - destruct (x >? max_val).
    + rewrite app_nil_r. reflexivity.
    + rewrite IH. rewrite <- app_assoc. reflexivity.
Qed.

Lemma prefix_upto_split (max_val : Z) (stream : list Z) :
  exists rest,
    stream = prefix_upto max_val stream ++ rest /\
    Forall (fun x => x <= max_val) (prefix_upto max_val stream) /\
    (forall y, hd_error rest = Some y -> max_val < y).
Proof.
  induction stream as [|x s IH]; cbn [prefix_upto].
  - exists []. split; [reflexivity|]. split; [constructor|]. intros y Hy. discriminate Hy.
  - destruct (x >? max_val) eqn:Hx.
    + exists (x :: s). split; [reflexivity|]. split; [constructor|].
      intros y Hy. injection Hy as <-. apply Z.gtb_lt in Hx. exact Hx.
    + destruct IH as (rest & Hs & Hall & Hhd). exists rest.
      split; [cbn [app]; rewrite <- Hs; reflexivity|].
      split; [|exact Hhd]. constructor; [|exact Hall].
      destruct (Z.gtb_spec x max_val); [discriminate Hx | lia].
Qed.

Lemma prefix_upto_length (max_val : Z) (stream : list Z) :
  (length (prefix_upto max_val stream) <= length stream)%nat.
Proof.
  induction stream as [|x s IH]; cbn [prefix_upto length]; [lia|].
  destruct (x >? max_val); cbn [length]; lia.
Qed.

(** ** The binary search of [is_carmichael] *)

Lemma array_get_nonneg (l : list Z) (i : Z) :
  0 <= i -> array_get l i = nth_error l (Z.to_nat i).
Proof.
  intros Hi. unfold array_get. destruct (Z.ltb_spec i 0); [lia | reflexivity].
Qed.

Lemma is_carmichael_loop_S (fuel : nat) (l : list Z) (n lo hi : Z) :
  is_carmichael_loop (S fuel) l n lo hi =
  if lo <? hi then
    match array_get l (Z.shiftr (u64 (lo + hi)) 1) with
    | None => Some None
    | Some v =>
        if v <? n
        then is_carmichael_loop fuel l n (u64 (Z.shiftr (u64 (lo + hi)) 1 + 1)) hi
        else is_carmichael_loop fuel l n lo (Z.shiftr (u64 (lo + hi)) 1)
    end
  else Some (Some lo).
Proof. reflexivity. Qed.

(** The midpoint computed in 64 bits is the true midpoint as long as the
    array has fewer than [2^63] elements. *)
Lemma midpoint_exact (len lo hi : Z) :
  0 <= lo -> lo < hi -> hi <= len -> len < 2 ^ 63 ->
  let mid := Z.shiftr (u64 (lo + hi)) 1 in
  lo <= mid < hi /\ 2 * mid <= lo + hi < 2 * mid + 2 /\ u64 (mid + 1) = mid + 1.
Proof.
  intros Hlo Hlt Hhi Hlen mid. subst mid.
  rewrite u64_small by (change (2 ^ 64) with (2 * 2 ^ 63); lia).
  rewrite shiftr_1_half.
  pose proof (Z.div_mod (lo + hi) 2 ltac:(lia)) as Hdm.
  pose proof (Z.mod_pos_bound (lo + hi) 2 ltac:(lia)) as Hmb.
  assert (Hmid : lo <= (lo + hi) / 2 < hi) by lia.
  split; [exact Hmid|]. split; [lia|].
  apply u64_small. change (2 ^ 64) with (2 * 2 ^ 63). lia.
Qed.

(** Termination and index safety: with [hi - lo < 2^fuel] the loop ends
    within [fuel] halvings, and no read leaves the array. *)
Lemma is_carmichael_loop_total (l : list Z) (n : Z) :
  Z.of_nat (length l) < 2 ^ 63 ->
  forall (fuel : nat) (lo hi : Z),
    0 <= lo -> lo <= hi -> hi <= Z.of_nat (length l) ->
    hi - lo < 2 ^ Z.of_nat fuel ->
    exists r, is_carmichael_loop (S fuel) l n lo hi = Some (Some r) /\ lo <= r <= hi.
Proof.
  intros Hlen. induction fuel as [|f IH]; intros lo hi Hlo Hle Hhi Hsz;
    rewrite is_carmichael_loop_S.
  - change (2 ^ Z.of_nat 0) with 1 in Hsz.
    destruct (Z.ltb_spec lo hi) as [Hlt|Hge]; [lia|].
    exists lo. split; [reflexivity | lia].
  - destruct (Z.ltb_spec lo hi) as [Hlt|Hge].
    + destruct (midpoint_exact _ lo hi Hlo Hlt Hhi Hlen) as (Hmid & Hhalf & Hsucc).
      set (mid := Z.shiftr (u64 (lo + hi)) 1) in *.
      rewrite Nat2Z.inj_succ, Z.pow_succ_r in Hsz by lia.
      rewrite array_get_nonneg by lia.
      destruct (nth_error l (Z.to_nat mid)) as [v|] eqn:Hv.
      * destruct (v <? n).
        -- rewrite Hsucc.
           destruct (IH (mid + 1) hi) as (r & Hr & Hb); [lia .. |].
           exists r. split; [exact Hr | lia].
        -- destruct (IH lo mid) as (r & Hr & Hb); [lia .. |].
           exists r. split; [exact Hr | lia].
      * apply nth_error_None in Hv. lia.
    + exists lo. split; [reflexivity | lia].
Qed.

(** On an ascending array the loop computes the lower bound of [n]. *)
Lemma is_carmichael_loop_lower_bound (l : list Z) (n : Z) :
  ascending l = true ->
  Z.of_nat (length l) < 2 ^ 63 ->
  forall (fuel : nat) (lo hi r : Z),
    0 <= lo -> lo <= hi -> hi <= Z.of_nat (length l) ->
    (forall i v, Z.of_nat i < lo -> nth_error l i = Some v -> v < n) ->
    (forall i v, hi <= Z.of_nat i -> nth_error l i = Some v -> n <= v) ->
    is_carmichael_loop fuel l n lo hi = Some (Some r) ->
    (forall i v, Z.of_nat i < r -> nth_error l i = Some v -> v < n) /\
    (forall i v, r <= Z.of_nat i -> nth_error l i = Some v -> n <= v).
Proof.
  intros Hasc Hlen. induction fuel as [|f IH];
    intros lo hi r Hlo Hle Hhi Hbelow Habove Hrun; [discriminate Hrun|].
  rewrite is_carmichael_loop_S in Hrun.
  destruct (Z.ltb_spec lo hi) as [Hlt|Hge].
  - destruct (midpoint_exact _ lo hi Hlo Hlt Hhi Hlen) as (Hmid & Hhalf & Hsucc).
    set (mid := Z.shiftr (u64 (lo + hi)) 1) in *.
    rewrite array_get_nonneg in Hrun by lia.
    destruct (nth_error l (Z.to_nat mid)) as [v|] eqn:Hv; [|discriminate Hrun].
    destruct (Z.ltb_spec v n) as [Hvn|Hvn].
    + rewrite Hsucc in Hrun.
      apply (IH (mid + 1) hi r); try lia; try assumption.
      intros i u Hi Hu.
      destruct (Nat.eq_dec i (Z.to_nat mid)) as [->|Hne].
      * rewrite Hv in Hu. injection Hu as <-. exact Hvn.
      * assert (u < v); [|lia].
        apply (ascending_nth l Hasc i (Z.to_nat mid)); [lia | exact Hu | exact Hv].
    + apply (IH lo mid r); try lia; try assumption.
      intros i u Hi Hu.
      destruct (Nat.eq_dec i (Z.to_nat mid)) as [->|Hne].
      * rewrite Hv in Hu. injection Hu as <-. exact Hvn.
      * assert (v < u); [|lia].
        apply (ascending_nth l Hasc (Z.to_nat mid) i); [lia | exact Hv | exact Hu].
  - injection Hrun as <-. split.
    + intros i v Hi Hv. apply (Hbelow i v); [lia | exact Hv].
    + intros i v Hi Hv. apply (Habove i v); [lia | exact Hv].
Qed.

(** What a call of [is_carmichael] does: it logs the call, leaves the rest of
    the world alone, and returns; a positive answer is always a member, and
    on an ascending array every member gets a positive answer. *)
Lemma is_carmichael_spec {R} (fuel : nat) (n : Z) (w : world R) :
  (64 <= fuel)%nat ->
  carmichael_count w < 2 ^ 63 ->
  exists b,
    is_carmichael fuel n w = Ok b (add_call (EvLookup n) w) /\
    (b = true -> In n (carmichael_list w)) /\
    (ascending (carmichael_list w) = true -> In n (carmichael_list w) -> b = true).
Proof.
  intros Hfuel Hlen. unfold is_carmichael, bind, log_call.
  change (carmichael_list (add_call (EvLookup n) w)) with (carmichael_list w).
  change (carmichael_count (add_call (EvLookup n) w)) with (carmichael_count w).
  unfold carmichael_count in *. set (l := carmichael_list w) in *.
  destruct fuel as [|f]; [lia|].
  assert (Hpow : 2 ^ 63 <= 2 ^ Z.of_nat f) by (apply Z.pow_le_mono_r; lia).
  destruct (is_carmichael_loop_total l n Hlen f 0 (Z.of_nat (length l)))
    as (r & Hr & Hb); [lia .. |].
  rewrite Hr.
  assert (H0 : forall (i : nat) (u : Z),
             Z.of_nat i < 0 -> nth_error l i = Some u -> u < n) by (intros; lia).
  assert (Hend : forall (i : nat) (u : Z),
             Z.of_nat (length l) <= Z.of_nat i -> nth_error l i = Some u -> n <= u).
  { intros i u Hi Hu. assert (nth_error l i <> None) as Hs by congruence.
    apply nth_error_Some in Hs. lia. }
  destruct (Z.ltb_spec r (Z.of_nat (length l))) as [Hin|Hout].
  - rewrite array_get_nonneg by lia.
    destruct (nth_error l (Z.to_nat r)) as [v|] eqn:Hv.
    + exists (v =? n). split; [reflexivity|]. split.
      * intros He. apply Z.eqb_eq in He. subst v.
        apply (nth_error_In l (Z.to_nat r)). exact Hv.
      * intros Hasc Hmem. apply Z.eqb_eq.
        destruct (is_carmichael_loop_lower_bound l n Hasc Hlen (S f) 0
                    (Z.of_nat (length l)) r) as (Hbelow & Habove);
          [lia | lia | lia | exact H0 | exact Hend | exact Hr |].
        apply In_nth_error in Hmem. destruct Hmem as (i & Hi).
        assert (Hge : n <= v) by (apply (Habove (Z.to_nat r) v); [lia | exact Hv]).
        destruct (Z_lt_le_dec (Z.of_nat i) r) as [Hlt|Hle].
        -- specialize (Hbelow i n Hlt Hi). lia.
        -- destruct (Nat.eq_dec i (Z.to_nat r)) as [->|Hne]; [congruence|].
           assert (v < n); [|lia].
           apply (ascending_nth l Hasc (Z.to_nat r) i); [lia | exact Hv | exact Hi].
    + apply nth_error_None in Hv. lia.
  - exists false. split; [reflexivity|]. split; [discriminate|].
    intros Hasc Hmem.
    destruct (is_carmichael_loop_lower_bound l n Hasc Hlen (S f) 0
                (Z.of_nat (length l)) r) as (Hbelow & _);
      [lia | lia | lia | exact H0 | exact Hend | exact Hr |].
    apply In_nth_error in Hmem. destruct Hmem as (i & Hi).
    assert (Hs : nth_error l i <> None) by congruence.
    apply nth_error_Some in Hs.
    assert (n < n); [|lia]. apply (Hbelow i n); [lia | exact Hi].
Qed.

Section WithRandStateFacts.

Context {R : Type} {RS : RandState R}.

(** ** The sampler *)

Lemma generate_random_coprime_loop_S (fuel : nat) (n : Z) (w : world R) :
  generate_random_coprime_loop (S fuel) n w =
  bind (urandomm n)
    (fun base =>
       let base := if base <? 2 then base + 2
                   else if base >=? n then base mod n
                   else base in
       if negb (Z.gcd base n =? 1) then generate_random_coprime_loop fuel n
       else ret base) w.
Proof. reflexivity. Qed.

(** A draw for a positive modulus never traps and lies in [0 .. n-1]. *)
Lemma urandomm_spec (n : Z) (w : world R) :
  0 < n ->
  exists r s', urandomm n w = Ok r (set_rng s' w) /\ 0 <= r < n.
Proof.
  intros Hn. unfold urandomm.
  destruct (Z.eqb_spec n 0) as [->|_]; [lia|].
  pose proof (mpz_urandomm_range (rng w) n Hn) as Hr.
  destruct (mpz_urandomm (rng w) n) as [r s']. cbn [fst] in Hr.
  exists r, s'. split; [reflexivity | exact Hr].
Qed.

(** For a draw in range the middle branch of the adjustment is dead. *)
Lemma adjust_shifted (n r : Z) :
  0 <= r < n ->
  (if r <? 2 then r + 2 else if r >=? n then r mod n else r) = shifted r.
Proof.
  intros Hr. unfold shifted. destruct (r <? 2); [reflexivity|].
  destruct (Z.geb_spec r n); [lia | reflexivity].
Qed.

Lemma same_store_refl (w : world R) : same_store w w.
Proof. repeat split. Qed.

Lemma generate_random_coprime_loop_spec (n : Z) :
  0 < n ->
  forall (fuel : nat) (w : world R),
    match generate_random_coprime_loop fuel n w with
    | Ok a w' => admissible n a /\ same_store w w'
    | Stop e w' => e = OutOfFuel /\ same_store w w'
    end.
Proof.
  intros Hn. induction fuel as [|f IH]; intros w.
  - cbn. split; [reflexivity | apply same_store_refl].
  - rewrite generate_random_coprime_loop_S.
    destruct (urandomm_spec n w Hn) as (r & s' & Hdraw & Hr).
    rewrite (bind_eq_Ok _ _ _ _ _ Hdraw). cbv zeta.
    rewrite (adjust_shifted n r Hr).
    destruct (Z.eqb_spec (Z.gcd (shifted r) n) 1) as [Hg|Hg]; cbn [negb].
    + unfold ret. split; [|repeat split].
      split; [exact Hg|]. exists r. split; [exact Hr | reflexivity].
    + specialize (IH (set_rng s' w)).
      destruct (generate_random_coprime_loop f n (set_rng s' w)) as [a w'|e w'];
        exact IH.
Qed.

Lemma generate_random_coprime_spec (n : Z) (fuel : nat) (w : world R) :
  0 < n ->
  match generate_random_coprime fuel n w with
  | Ok a w' => admissible n a /\ sampled n 1 w w'
  | Stop e w' => e = OutOfFuel /\ sampled n 1 w w'
  end.
Proof.
  intros Hn. unfold generate_random_coprime, bind, log_call.
  pose proof (generate_random_coprime_loop_spec n Hn fuel
                (add_call (EvSample n) w)) as H.
  destruct (generate_random_coprime_loop fuel n (add_call (EvSample n) w))
    as [a w'|e w']; destruct H as (H1 & Hl & Ho & Hc);
    (split; [exact H1 | repeat split; assumption]).
Qed.

(** The bases handed out for [n >= 4] lie in [2 .. n-1]. *)
Lemma admissible_range (n a : Z) :
  4 <= n -> admissible n a -> 2 <= a <= n - 1.
Proof.
  intros Hn (_ & r & Hr & ->). unfold shifted.
  destruct (Z.ltb_spec r 2); lia.
Qed.

(** ** Fermat's little theorem for the bases of the sampler *)

Lemma coprime_mod_nonzero (n a : Z) :
  1 < n -> Z.gcd a n = 1 -> a mod n <> 0.
Proof.
  intros Hn Hg Hz.
  assert (Hdiv : (n | a)) by (apply Z.mod_divide; [lia | exact Hz]).
  assert (Hnn : (n | Z.gcd a n)) by (apply Z.gcd_greatest; [exact Hdiv | apply Z.divide_refl]).
  rewrite Hg in Hnn. apply Z.divide_1_r_nonneg in Hnn; lia.
Qed.

Lemma mpz_powm_prime (n a : Z) :
  Z.prime n -> Z.gcd a n = 1 -> mpz_powm a (n - 1) n = 1.
Proof.
  intros Hp Hg. unfold mpz_powm. apply Z.fermat_nz; [exact Hp|].
  apply coprime_mod_nonzero; [|exact Hg].
  pose proof (Z.prime_ge_2 n Hp). lia.
Qed.

(** ** The Fermat test *)

Lemma fermat_test_loop_S (fuel : nat) (n e : Z) (iters : nat) (w : world R) :
  fermat_test_loop fuel n e (S iters) w =
  bind (generate_random_coprime fuel n)
    (fun a => if negb (mpz_powm a e n =? 1) then ret (0, a)
              else fermat_test_loop fuel n e iters) w.
Proof. reflexivity. Qed.

Lemma sampled_trans (n : Z) (i j : nat) (w w1 w2 : world R) :
  sampled n i w w1 -> sampled n j w1 w2 -> sampled n (j + i) w w2.
Proof.
  intros (Hl1 & Ho1 & Hc1) (Hl2 & Ho2 & Hc2). repeat split.
  - congruence.
  - congruence.
  - rewrite Hc2, Hc1, repeat_app, app_assoc. reflexivity.
Qed.

(** Every outcome of the trial loop: either all trials passed, or the loop
    returned at the first failing base, or a sampler call is still running
    when the fuel ends.  Nothing but sampler calls happens meanwhile. *)
Lemma fermat_test_loop_spec (n e : Z) (fuel : nat) :
  0 < n ->
  forall (iters : nat) (w : world R),
    match fermat_test_loop fuel n e iters w with
    | Ok (v, a) w' =>
        (exists j, (j <= iters)%nat /\ sampled n j w w') /\
        ((v = 1 /\ a = 0) \/
         (v = 0 /\ admissible n a /\ mpz_powm a e n <> 1))
    | Stop f w' =>
        f = OutOfFuel /\ exists j, (j <= iters)%nat /\ sampled n j w w'
    end.
Proof.
  intros Hn. induction iters as [|it IH]; intros w.
  - cbn. split; [|left; split; reflexivity].
    exists 0%nat. split; [lia | repeat split].
  - rewrite fermat_test_loop_S. unfold bind.
    pose proof (generate_random_coprime_spec n fuel w Hn) as Hs.
    destruct (generate_random_coprime fuel n w) as [a w1|f w1].
    + destruct Hs as (Hadm & Hs1).
      destruct (Z.eqb_spec (mpz_powm a e n) 1) as [Hone|Hne]; cbn [negb].
      * specialize (IH w1).
        destruct (fermat_test_loop fuel n e it w1) as [[v b] w2|f w2].
        -- destruct IH as ((j & Hj & Hsj) & Hres). split; [|exact Hres].
           exists (j + 1)%nat. split; [lia|]. apply (sampled_trans n 1 j w w1 w2); assumption.
        -- destruct IH as (Hf & j & Hj & Hsj). split; [exact Hf|].
           exists (j + 1)%nat. split; [lia|]. apply (sampled_trans n 1 j w w1 w2); assumption.
      * unfold ret. split.
        -- exists 1%nat. split; [lia | exact Hs1].
        -- right. split; [reflexivity|]. split; [exact Hadm | exact Hne].
    + destruct Hs as (Hf & Hs1). split; [exact Hf|].
      exists 1%nat. split; [lia | exact Hs1].
Qed.

(** When every admissible base passes, the verdict can only be 1. *)
Lemma fermat_test_loop_all_pass (n e : Z) (fuel iters : nat) (w w' : world R)
    (v a : Z) :
  0 < n ->
  (forall b, admissible n b -> mpz_powm b e n = 1) ->
  fermat_test_loop fuel n e iters w = Ok (v, a) w' ->
  v = 1 /\ a = 0.
Proof.
  intros Hn Hall Hrun.
  pose proof (fermat_test_loop_spec n e fuel Hn iters w) as Hs.
  rewrite Hrun in Hs. destruct Hs as (_ & [Hok | (_ & Hadm & Hne)]); [exact Hok|].
  exfalso. apply Hne. apply Hall. exact Hadm.
Qed.

(** When every admissible base fails, one trial is enough for verdict 0. *)
Lemma fermat_test_loop_all_fail (n e : Z) (fuel iters : nat) (w w' : world R)
    (v a : Z) :
  0 < n ->
  (forall b, admissible n b -> mpz_powm b e n <> 1) ->
  fermat_test_loop fuel n e (S iters) w = Ok (v, a) w' ->
  v = 0.
Proof.
  intros Hn Hall Hrun. rewrite fermat_test_loop_S in Hrun.
  apply bind_Ok in Hrun. destruct Hrun as (b & w1 & Hb & Hrest).
  pose proof (generate_random_coprime_spec n fuel w Hn) as Hs.
  rewrite Hb in Hs. destruct Hs as (Hadm & _).
  destruct (Z.eqb_spec (mpz_powm b e n) 1) as [Hone|Hne]; cbn [negb] in Hrest.
  - exfalso. exact (Hall b Hadm Hone).
  - unfold ret in Hrest. congruence.
Qed.

(** For a prime modulus of at least 5 the sampler accepts its first draw. *)
Lemma generate_random_coprime_prime (n : Z) (fuel : nat) (w : world R) :
  Z.prime n -> 5 <= n ->
  exists a w', generate_random_coprime (S fuel) n w = Ok a w'.
Proof.
  intros Hp Hn. unfold generate_random_coprime, bind, log_call.
  rewrite generate_random_coprime_loop_S.
  destruct (urandomm_spec n (add_call (EvSample n) w) ltac:(lia))
    as (r & s' & Hdraw & Hr).
  rewrite (bind_eq_Ok _ _ _ _ _ Hdraw). cbv zeta.
  rewrite (adjust_shifted n r Hr).
  assert (Hg : Z.gcd (shifted r) n = 1).
  { rewrite Z.gcd_comm. apply Z.coprime_prime_small; [exact Hp|].
    unfold shifted. destruct (Z.ltb_spec r 2); lia. }
  rewrite Hg. cbn [Z.eqb Pos.eqb negb]. unfold ret. eauto.
Qed.

Lemma fermat_test_loop_prime (n : Z) (fuel iters : nat) :
  Z.prime n -> 5 <= n ->
  forall w : world R,
    exists w', fermat_test_loop (S fuel) n (n - 1) iters w = Ok (1, 0) w'.
Proof.
  intros Hp Hn. induction iters as [|it IH]; intros w.
  - exists w. reflexivity.
  - rewrite fermat_test_loop_S.
    destruct (generate_random_coprime_prime n fuel w Hp Hn) as (a & w1 & Ha).
    rewrite (bind_eq_Ok _ _ _ _ _ Ha).
    pose proof (generate_random_coprime_spec n (S fuel) w ltac:(lia)) as Hs.
    rewrite Ha in Hs. destruct Hs as ((Hg & _) & _).
    rewrite (mpz_powm_prime n a Hp Hg). cbn [Z.eqb Pos.eqb negb]. apply IH.
Qed.

End WithRandStateFacts.

(** ** What the Fermat test guarantees *)

(** The sampler's actual contract for [n >= 4]: the base is coprime to [n]
    and lies in [2 .. n-1]. *)
Lemma generate_random_coprime_contract {R} {RS : RandState R}
    (fuel : nat) (n a : Z) (w w' : world R) :
  4 <= n ->
  generate_random_coprime fuel n w = Ok a w' ->
  2 <= a <= n - 1 /\ Z.gcd a n = 1.
Proof.
  intros Hn Hrun.
  pose proof (generate_random_coprime_spec n fuel w ltac:(lia)) as Hs.
  rewrite Hrun in Hs. destruct Hs as (Hadm & _).
  split; [exact (admissible_range n a Hn Hadm) | exact (proj1 Hadm)].
Qed.

(** With a generator that keeps drawing 0 the sampler never leaves its loop
    for the modulus 2: whatever the fuel, the call is still running. *)
Lemma generate_random_coprime_loop_2_stuck (fuel : nat) :
  forall w : world (list Z),
    rng w = [] ->
    exists w', generate_random_coprime_loop fuel 2 w = Stop OutOfFuel w'.
Proof.
  induction fuel as [|f IH]; intros w Hw.
  - exists w. reflexivity.
  - rewrite generate_random_coprime_loop_S. unfold bind, urandomm.
    rewrite Hw. cbn -[generate_random_coprime_loop].
    apply IH. reflexivity.
Qed.

Lemma generate_random_coprime_2_stuck (fuel : nat) :
  exists w', generate_random_coprime fuel 2 (initial_world []) = Stop OutOfFuel w'.
Proof.
  unfold generate_random_coprime, bind, log_call.
  apply generate_random_coprime_loop_2_stuck. reflexivity.
Qed.

(** Whatever the generator, the test of the candidate 1 enters the sampler
    once with the modulus 1, gets the base 2 and returns it as the witness. *)
Lemma fermat_test_gmp_1 {R} {RS : RandState R} (fuel : nat) (k : Z) (w : world R) :
  (0 < fuel)%nat -> 0 < k ->
  exists w1,
    fermat_test_gmp fuel 1 k w = Ok (0, 2) w1 /\
    calls w1 = EvSample 1 :: calls w.
Proof.
  intros Hfuel Hk. unfold fermat_test_gmp.
  destruct (Z.to_nat k) as [|it] eqn:Hit; [lia|].
  destruct fuel as [|f]; [lia|].
  rewrite fermat_test_loop_S. unfold generate_random_coprime, bind at 1 2, log_call.
  rewrite generate_random_coprime_loop_S.
  destruct (urandomm_spec 1 (add_call (EvSample 1) w) ltac:(lia))
    as (r & s' & Hdraw & Hr).
  rewrite (bind_eq_Ok _ _ _ _ _ Hdraw).
  assert (r = 0) as -> by lia.
  cbn. eexists. split; reflexivity.
Qed.

(** C1 -- One-sided soundness of the Fermat test.  Whenever
    [fermat_test_gmp] returns, verdict 0 implies that [n] is not prime;
    equivalently a prime [n] only ever gets verdict 1 (with the witness
    cleared).  For a prime [n] the only other outcome is a sampler call that
    is still rejecting draws when the fuel ends, and for a prime [n >= 5]
    the sampler accepts every first draw, so the test does return 1. *)
Theorem fermat_one_sided_soundness {R} {RS : RandState R}
    (fuel : nat) (n k : Z) (w : world R) :
  (forall v a w',
      fermat_test_gmp fuel n k w = Ok (v, a) w' ->
      (v = 0 -> ~ Z.prime n) /\ (Z.prime n -> v = 1 /\ a = 0)) /\
  (Z.prime n ->
   forall e w', fermat_test_gmp fuel n k w = Stop e w' -> e = OutOfFuel) /\
  (Z.prime n -> 5 <= n -> (0 < fuel)%nat ->
   exists w', fermat_test_gmp fuel n k w = Ok (1, 0) w').
Proof.
  unfold fermat_test_gmp. split; [|split].
  - intros v a w' Hrun.
    assert (Hprime : Z.prime n -> v = 1 /\ a = 0).
    { intros Hp. pose proof (Z.prime_ge_2 n Hp) as Hn.
      apply (fermat_test_loop_all_pass n (n - 1) fuel (Z.to_nat k) w w' v a);
        [lia | | exact Hrun].
      intros b (Hg & _). apply mpz_powm_prime; assumption. }
    split; [|exact Hprime].
    intros Hv Hp. destruct (Hprime Hp) as (Hv1 & _). lia.
  - intros Hp e w' Hrun. pose proof (Z.prime_ge_2 n Hp) as Hn.
    pose proof (fermat_test_loop_spec n (n - 1) fuel ltac:(lia) (Z.to_nat k) w) as Hs.
    rewrite Hrun in Hs. apply Hs.
  - intros Hp Hn Hfuel. destruct fuel as [|f]; [lia|].
    apply fermat_test_loop_prime; assumption.
Qed.

Lemma prime_7 : Z.prime 7.
Proof.
  split; [lia|]. intros m Hm (q & Hq).
  assert (Hc : m = 2 \/ m = 3 \/ m = 4 \/ m = 5 \/ m = 6) by lia.
  destruct Hc as [->|[->|[->|[->| ->]]]]; lia.
Defined.

Lemma not_prime_4 : ~ Z.prime 4.
Proof.
  intros (_ & H). apply (H 2); [lia|]. exists 2. reflexivity.
Defined.

Lemma fermat_one_sided_soundness_witness :
  ~ Z.prime 4 /\
  exists w', fermat_test_gmp 1 7 16 (initial_world [3]) = Ok (1, 0) w'.
Proof.
  split.
  - destruct (fermat_one_sided_soundness 1 4 16 (initial_world [3])) as (H & _).
    refine (proj1 (H 0 3 (add_call (EvSample 4) (initial_world [])) _) eq_refl).
    vm_compute. reflexivity.
  - destruct (fermat_one_sided_soundness 1 7 16 (initial_world [3])) as (_ & _ & H).
    apply H; [exact prime_7 | lia | lia].
Defined.

(** C5 -- Witness validity.  For a composite [n], a counter-witness [a]
    returned with verdict 0 satisfies [1 < a < n] and
    [a^(n-1) mod n <> 1]. *)
Theorem fermat_witness_valid {R} {RS : RandState R}
    (fuel : nat) (n k a : Z) (w w' : world R) :
  1 < n -> ~ Z.prime n ->
  fermat_test_gmp fuel n k w = Ok (0, a) w' ->
  1 < a < n /\ a ^ (n - 1) mod n <> 1.
Proof.
  intros Hn Hcomp Hrun.
  assert (Hn4 : 4 <= n).
  { destruct (Z.eq_dec n 2) as [->|H2]; [exfalso; exact (Hcomp Z.prime_2)|].
    destruct (Z.eq_dec n 3) as [->|H3]; [exfalso; exact (Hcomp Z.prime_3)|].
    lia. }
  unfold fermat_test_gmp in Hrun.
  pose proof (fermat_test_loop_spec n (n - 1) fuel ltac:(lia) (Z.to_nat k) w) as Hs.
  rewrite Hrun in Hs. destruct Hs as (_ & [(Hv & _) | (_ & Hadm & Hne)]); [lia|].
  pose proof (admissible_range n a Hn4 Hadm) as Hr.
  split; [lia | exact Hne].
Qed.

Lemma fermat_witness_valid_witness : 1 < 3 < 4 /\ 3 ^ (4 - 1) mod 4 <> 1.
Proof.
  apply (fermat_witness_valid 1 4 16 3 (initial_world [3])
           (add_call (EvSample 4) (initial_world []))).
  - lia.
  - exact not_prime_4.
  - vm_compute. reflexivity.
Defined.

(** C4 -- The sampler for the modulus 5 with a generator whose next draw is
    4 returns the base 4 = n - 1, which is coprime to 5 but lies above the
    documented upper end n - 2 = 3 of the range. *)
Theorem generate_random_coprime_returns_n_minus_1 :
  generate_random_coprime 1 5 (initial_world [4])
    = Ok 4 (add_call (EvSample 5) (initial_world [])) /\
  Z.gcd 4 5 = 1 /\ ~ (2 <= 4 <= 5 - 2).
Proof.
  split; [vm_compute; reflexivity|]. split; [reflexivity | lia].
Qed.

(** C3 -- The scan has no special case for small candidates: with the
    program's 16 trials the candidates 1, 2 and 3 all reach the sampler,
    which is entered with the moduli 1, 2 and 3. *)
Theorem small_candidates_reach_sampler :
  exists w',
    main_loop 64 16 1 3 1000000 (initial_world (repeat 2519 40)) = Ok tt w' /\
    map row_n (out w') = [1; 2; 3] /\
    In (EvSample 1) (calls w') /\ In (EvSample 2) (calls w') /\
    In (EvSample 3) (calls w').
Proof.
  eexists. split; [vm_compute; reflexivity|].
  split; [reflexivity|]. cbn. intuition.
Qed.

(** ** The oracle *)

(** C10 -- [is_carmichael] is total and safe.  For every argument and every
    array of [m < 2^63] elements (eight bytes each, so nothing larger fits
    the address space) the binary search ends within 64 iterations, reads
    only initialised elements, and on the empty array answers [false]. *)
Theorem is_carmichael_total_and_safe {R} (fuel : nat) (n : Z) (w : world R) :
  (64 <= fuel)%nat ->
  carmichael_count w < 2 ^ 63 ->
  (exists b, is_carmichael fuel n w = Ok b (add_call (EvLookup n) w)) /\
  (carmichael_list w = [] ->
   is_carmichael fuel n w = Ok false (add_call (EvLookup n) w)).
Proof.
  intros Hfuel Hlen.
  destruct (is_carmichael_spec fuel n w Hfuel Hlen) as (b & Hrun & Hmem & _).
  split; [exists b; exact Hrun|].
  intros Hnil. rewrite Hrun. destruct b; [|reflexivity].
  specialize (Hmem eq_refl). rewrite Hnil in Hmem. destruct Hmem.
Qed.

Lemma is_carmichael_total_and_safe_witness :
  (exists b,
      is_carmichael 64 1105
        {| rng := tt; carmichael_list := [561; 1105; 1729]; out := []; calls := [] |}
      = Ok b (add_call (EvLookup 1105)
                {| rng := tt; carmichael_list := [561; 1105; 1729];
                   out := []; calls := [] |})) /\
  is_carmichael 64 1105 (initial_world tt)
  = Ok false (add_call (EvLookup 1105) (initial_world tt)).
Proof.
  split.
  - apply (is_carmichael_total_and_safe 64 1105
             {| rng := tt; carmichael_list := [561; 1105; 1729];
                out := []; calls := [] |}); [lia | reflexivity].
  - apply (is_carmichael_total_and_safe 64 1105 (initial_world tt));
      [lia | reflexivity | reflexivity].
Defined.

Lemma ascending_all_above (y : Z) (rest : list Z) (max_val : Z) :
  ascending (y :: rest) = true -> max_val < y ->
  forall n, In n (y :: rest) -> max_val < n.
Proof.
  intros Hasc Hy n [<-|Hn]; [exact Hy|].
  pose proof (ascending_head_lt y rest Hasc n Hn). lia.
Qed.

(** C6 -- Oracle correctness.  For a strictly ascending stream, loaded at
    start-up, [load_carmichael] stores exactly the leading values up to
    [max_val] (the stream is the stored values followed by a rest that is
    empty or starts above [max_val]), and [is_carmichael] answers [true]
    exactly for the stored values; so a stream value is found if it is at
    most [max_val] and not found if it is above. *)
Theorem oracle_correct {R} (stream : list Z) (max_val : Z) (fuel : nat)
    (w : world R) :
  carmichael_list w = [] ->
  ascending stream = true ->
  Z.of_nat (length stream) < 2 ^ 63 ->
  (64 <= fuel)%nat ->
  exists loaded rest,
    load_carmichael (Some stream) max_val w
      = Ok tt (set_carmichael_list loaded w) /\
    stream = loaded ++ rest /\
    Forall (fun x => x <= max_val) loaded /\
    (forall y, hd_error rest = Some y -> max_val < y) /\
    forall n, exists b,
      is_carmichael fuel n (set_carmichael_list loaded w)
        = Ok b (add_call (EvLookup n) (set_carmichael_list loaded w)) /\
      (b = true <-> In n loaded) /\
      (In n stream -> n <= max_val -> b = true) /\
      (In n stream -> max_val < n -> b = false).
Proof.
  intros Hempty Hasc Hlen Hfuel.
  destruct (prefix_upto_split max_val stream) as (rest & Hsplit & Hall & Hhd).
  set (loaded := prefix_upto max_val stream) in *.
  exists loaded, rest.
  split.
  { unfold load_carmichael. rewrite load_loop_prefix, Hempty. reflexivity. }
  split; [exact Hsplit|]. split; [exact Hall|]. split; [exact Hhd|].
  intros n.
  assert (Hlasc : ascending loaded = true).
  { apply (ascending_app_l loaded rest). rewrite <- Hsplit. exact Hasc. }
  assert (Hcount : carmichael_count (set_carmichael_list loaded w) < 2 ^ 63).
  { unfold carmichael_count. cbn [carmichael_list set_carmichael_list].
    pose proof (prefix_upto_length max_val stream). fold loaded in H. lia. }
  destruct (is_carmichael_spec fuel n (set_carmichael_list loaded w) Hfuel Hcount)
    as (b & Hrun & Hsound & Hcomplete).
  cbn [carmichael_list set_carmichael_list] in Hsound, Hcomplete.
  exists b. split; [exact Hrun|].
  assert (Hiff : b = true <-> In n loaded).
  { split; [exact Hsound | exact (Hcomplete Hlasc)]. }
  split; [exact Hiff|]. split.
  - intros Hin Hle. apply Hiff.
    rewrite Hsplit in Hin. apply in_app_or in Hin. destruct Hin as [Hin|Hin]; [exact Hin|].
    exfalso. destruct rest as [|y rest']; [destruct Hin|].
    assert (max_val < n); [|lia].
    apply (ascending_all_above y rest' max_val); [|apply Hhd; reflexivity | exact Hin].
    apply (ascending_app_r loaded). rewrite <- Hsplit. exact Hasc.
  - intros _ Hgt. destruct b; [|reflexivity].
    exfalso. assert (Hin : In n loaded) by (apply Hiff; reflexivity).
    rewrite Forall_forall in Hall. specialize (Hall n Hin). cbv beta in Hall. lia.
Qed.

Lemma oracle_correct_witness :
  exists loaded rest,
    load_carmichael (Some [561; 1105; 1729; 2465; 2821]) 2000 (initial_world tt)
      = Ok tt (set_carmichael_list loaded (initial_world tt)) /\
    [561; 1105; 1729; 2465; 2821] = loaded ++ rest /\
    Forall (fun x => x <= 2000) loaded /\
    (forall y, hd_error rest = Some y -> 2000 < y) /\
    forall n, exists b,
      is_carmichael 64 n (set_carmichael_list loaded (initial_world tt))
        = Ok b (add_call (EvLookup n) (set_carmichael_list loaded (initial_world tt))) /\
      (b = true <-> In n loaded) /\
      (In n [561; 1105; 1729; 2465; 2821] -> n <= 2000 -> b = true) /\
      (In n [561; 1105; 1729; 2465; 2821] -> 2000 < n -> b = false).
Proof.
  apply (oracle_correct [561; 1105; 1729; 2465; 2821] 2000 64 (initial_world tt));
    [reflexivity | reflexivity | reflexivity | lia].
Defined.

(** C9 -- A pseudoprime file that cannot be opened is fatal.
    [load_carmichael] exits with status 1 and so does [main]; the world at
    the exit is the world at the start: no list has been stored, no row
    written, no sampler or oracle call made. *)
Theorem unopenable_source_is_fatal {R} {RS : RandState R}
    (fuel : nat) (results_ok : bool) (seeded : R) (max_val : Z) (w : world R) :
  load_carmichael None max_val w = Stop (Exit 1) w /\
  main fuel None results_ok seeded w = Stop (Exit 1) w.
Proof. split; reflexivity. Qed.

(** ** Classifying one candidate *)

Section Classify.

Context {R : Type} {RS : RandState R}.

(** Frame facts that need no assumption on the arguments. *)

Lemma urandomm_frame (n r : Z) (w w' : world R) :
  urandomm n w = Ok r w' ->
  carmichael_list w' = carmichael_list w /\ out w' = out w.
Proof.
  unfold urandomm. destruct (n =? 0); [discriminate|].
  destruct (mpz_urandomm (rng w) n) as [b s']. intros H.
  injection H as _ <-. split; reflexivity.
Qed.

Lemma generate_random_coprime_loop_frame (n : Z) (fuel : nat) :
  forall (a : Z) (w w' : world R),
    generate_random_coprime_loop fuel n w = Ok a w' ->
    carmichael_list w' = carmichael_list w /\ out w' = out w.
Proof.
  induction fuel as [|f IH]; intros a w w' Hrun; [discriminate Hrun|].
  rewrite generate_random_coprime_loop_S in Hrun.
  apply bind_Ok in Hrun. destruct Hrun as (r & w1 & Hdraw & Hrest).
  apply urandomm_frame in Hdraw. destruct Hdraw as (Hl & Ho). cbv zeta in Hrest.
  destruct (negb _) in Hrest.
  - apply IH in Hrest. destruct Hrest as (Hl' & Ho'). split; congruence.
  - unfold ret in Hrest. injection Hrest as _ <-. split; assumption.
Qed.

Lemma fermat_test_loop_frame (fuel : nat) (n e : Z) (iters : nat) :
  forall (p : Z * Z) (w w' : world R),
    fermat_test_loop fuel n e iters w = Ok p w' ->
    carmichael_list w' = carmichael_list w /\ out w' = out w.
Proof.
  induction iters as [|it IH]; intros p w w' Hrun.
  - cbn in Hrun. unfold ret in Hrun. injection Hrun as _ <-. split; reflexivity.
  - rewrite fermat_test_loop_S in Hrun.
    apply bind_Ok in Hrun. destruct Hrun as (a & w1 & Hgen & Hrest).
    unfold generate_random_coprime, bind, log_call in Hgen.
    apply generate_random_coprime_loop_frame in Hgen.
    cbn [carmichael_list out add_call] in Hgen. destruct Hgen as (Hl & Ho).
    destruct (negb _) in Hrest.
    + unfold ret in Hrest. injection Hrest as _ <-. split; assumption.
    + apply IH in Hrest. destruct Hrest as (Hl' & Ho'). split; congruence.
Qed.

Lemma is_carmichael_frame (fuel : nat) (n : Z) (b : bool) (w w' : world R) :
  is_carmichael fuel n w = Ok b w' -> w' = add_call (EvLookup n) w.
Proof.
  unfold is_carmichael, bind, log_call.
  destruct (is_carmichael_loop _ _ _ _ _) as [[lo|]|]; try discriminate.
  destruct (lo <? _).
  - destruct (array_get _ _); [|discriminate]. intros H. injection H as _ <-. reflexivity.
  - intros H. injection H as _ <-. reflexivity.
Qed.

(** A classification that returns has written exactly one row, for its
    candidate, and has left the Carmichael list alone. *)
Lemma classify_candidate_row (fuel : nat) (k x : Z) (w w' : world R) :
  classify_candidate fuel k x w = Ok tt w' ->
  carmichael_list w' = carmichael_list w /\
  exists r, out w' = out w ++ [r] /\ row_n r = x.
Proof.
  unfold classify_candidate. intros Hrun.
  apply bind_Ok in Hrun. destruct Hrun as ([v a] & w1 & Hf & Hrest).
  apply fermat_test_loop_frame in Hf. destruct Hf as (Hl1 & Ho1).
  apply bind_Ok in Hrest. destruct Hrest as (rp & w2 & Hrp & Hemit).
  assert (Hw2 : carmichael_list w2 = carmichael_list w1 /\ out w2 = out w1).
  { destruct (negb (v =? 0)).
    - apply bind_Ok in Hrp. destruct Hrp as (c & w3 & Hc & Hret).
      apply is_carmichael_frame in Hc. subst w3.
      unfold ret in Hret. injection Hret as _ <-. split; reflexivity.
    - unfold ret in Hrp. injection Hrp as _ <-. split; reflexivity. }
  destruct Hw2 as (Hl2 & Ho2).
  destruct (negb (v =? 0)); unfold emit in Hemit; injection Hemit as <-;
    cbn [carmichael_list out add_row]; (split; [congruence|]);
    eexists; (split; [rewrite Ho2, Ho1; reflexivity | reflexivity]).
Qed.

(** The full account of one classification of a positive candidate. *)
Lemma classify_candidate_spec (fuel : nat) (k x : Z) (w : world R) :
  0 < x -> (64 <= fuel)%nat -> carmichael_count w < 2 ^ 63 ->
  match classify_candidate fuel k x w with
  | Ok _ w' =>
      exists v a w1 j r,
        fermat_test_gmp fuel x k w = Ok (v, a) w1 /\
        sampled x j w w1 /\
        row_n r = x /\ row_is_prime r = v /\
        ((v = 0 /\ row_witness r = Some a /\ row_is_really_prime r = 0 /\
          w' = add_row r w1) \/
         (v = 1 /\ row_witness r = None /\
          exists b,
            (b = true -> In x (carmichael_list w)) /\
            (ascending (carmichael_list w) = true ->
             In x (carmichael_list w) -> b = true) /\
            row_is_really_prime r = (if b then 0 else 1) /\
            w' = add_row r (add_call (EvLookup x) w1)))
  | Stop e w' => e = OutOfFuel /\ exists j, sampled x j w w'
  end.
Proof.
  intros Hx Hfuel Hlen. unfold classify_candidate, bind at 1.
  pose proof (fermat_test_loop_spec x (x - 1) fuel Hx (Z.to_nat k) w) as Hs.
  change (fermat_test_loop fuel x (x - 1) (Z.to_nat k) w)
    with (fermat_test_gmp fuel x k w) in Hs.
  destruct (fermat_test_gmp fuel x k w) as [[v a] w1|e w1] eqn:Hf.
  - destruct Hs as ((j & _ & Hsj) & Hres).
    assert (Hl1 : carmichael_list w1 = carmichael_list w) by apply Hsj.
    destruct Hres as [(-> & ->) | (-> & _ & _)].
    + cbn [Z.eqb negb].
      assert (Hlen1 : carmichael_count w1 < 2 ^ 63).
      { unfold carmichael_count in *. rewrite Hl1. exact Hlen. }
      destruct (is_carmichael_spec fuel x w1 Hfuel Hlen1) as (b & Hb & Hsound & Hcompl).
      rewrite Hl1 in Hsound, Hcompl.
      unfold bind. rewrite Hb. unfold ret, emit.
      exists 1, 0, w1, j,
        {| row_n := x; row_bit_len := (if x =? 0 then 1 else 64 - clzll x);
           row_is_prime := 1; row_witness := None;
           row_is_really_prime := (if b then 0 else 1) |}.
      split; [reflexivity|]. split; [exact Hsj|].
      split; [reflexivity|]. split; [reflexivity|]. right.
      split; [reflexivity|]. split; [reflexivity|].
      exists b. split; [exact Hsound|]. split; [exact Hcompl|].
      split; reflexivity.
    + cbn [Z.eqb negb]. unfold bind, ret, emit.
      exists 0, a, w1, j,
        {| row_n := x; row_bit_len := (if x =? 0 then 1 else 64 - clzll x);
           row_is_prime := 0; row_witness := Some a;
           row_is_really_prime := 0 |}.
      split; [reflexivity|]. split; [exact Hsj|].
      split; [reflexivity|]. split; [reflexivity|]. left.
      repeat split.
  - destruct Hs as (He & j & _ & Hsj). split; [exact He|]. exists j. exact Hsj.
Qed.

End Classify.

Lemma not_lookup_in_samples (n y : Z) (j : nat) :
  ~ In (EvLookup y) (repeat (EvSample n) j).
Proof. intros H. apply repeat_spec in H. discriminate H. Qed.

(** C2 -- Ground-truth refinement.  The row written for a candidate has
    [is_really_prime = 1] exactly when [is_prime = 1] and the candidate is
    not in the (ascending) Carmichael list; when [is_prime = 0] the flag is 0
    and the calls made for the candidate include no oracle lookup. *)
Theorem ground_truth_refinement {R} {RS : RandState R}
    (fuel : nat) (k x : Z) (w w' : world R) :
  0 < x -> (64 <= fuel)%nat -> carmichael_count w < 2 ^ 63 ->
  ascending (carmichael_list w) = true ->
  classify_candidate fuel k x w = Ok tt w' ->
  exists r evs,
    out w' = out w ++ [r] /\ calls w' = evs ++ calls w /\ row_n r = x /\
    (row_is_prime r = 0 \/ row_is_prime r = 1) /\
    (row_is_really_prime r = 0 \/ row_is_really_prime r = 1) /\
    (row_is_really_prime r = 1 <->
     row_is_prime r = 1 /\ ~ In x (carmichael_list w)) /\
    (row_is_prime r = 0 ->
     row_is_really_prime r = 0 /\ forall y, ~ In (EvLookup y) evs).
Proof.
  intros Hx Hfuel Hlen Hasc Hrun.
  pose proof (classify_candidate_spec fuel k x w Hx Hfuel Hlen) as Hs.
  rewrite Hrun in Hs.
  destruct Hs as (v & a & w1 & j & r & _ & (Hl & Ho & Hc) & Hn & Hp & Hcase).
  destruct Hcase as [(-> & _ & Hrp & ->) | (-> & _ & b & Hsound & Hcompl & Hrp & ->)].
  - exists r, (repeat (EvSample x) j).
    cbn [out calls add_row]. rewrite Ho, Hc, Hp, Hrp.
    split; [reflexivity|]. split; [reflexivity|]. split; [exact Hn|].
    split; [left; reflexivity|]. split; [left; reflexivity|].
    split; [split; [discriminate | intros (H & _); discriminate H]|].
    intros _. split; [reflexivity|]. intros y. apply not_lookup_in_samples.
  - exists r, (EvLookup x :: repeat (EvSample x) j).
    cbn [out calls add_row add_call]. rewrite Ho, Hc, Hp, Hrp.
    split; [reflexivity|]. split; [reflexivity|]. split; [exact Hn|].
    split; [right; reflexivity|].
    split; [destruct b; [left | right]; reflexivity|].
    split; [|discriminate].
    destruct b.
    + split; [discriminate|]. intros (_ & Hnot). exfalso. apply Hnot.
      apply Hsound. reflexivity.
    + split; [|reflexivity]. intros _. split; [reflexivity|].
      intros Hin. specialize (Hcompl Hasc Hin). discriminate Hcompl.
Qed.

Lemma ground_truth_refinement_witness :
  exists w',
    classify_candidate 64 16 561
      {| rng := repeat 2 16; carmichael_list := [561; 1105; 1729];
         out := []; calls := [] |} = Ok tt w' /\
    exists r evs,
      out w' = [] ++ [r] /\ calls w' = evs ++ [] /\ row_n r = 561 /\
      (row_is_prime r = 0 \/ row_is_prime r = 1) /\
      (row_is_really_prime r = 0 \/ row_is_really_prime r = 1) /\
      (row_is_really_prime r = 1 <->
       row_is_prime r = 1 /\ ~ In 561 [561; 1105; 1729]) /\
      (row_is_prime r = 0 ->
       row_is_really_prime r = 0 /\ forall y, ~ In (EvLookup y) evs).
Proof.
  eexists. split; [vm_compute; reflexivity|].
  apply (ground_truth_refinement 64 16 561
           {| rng := repeat 2 16; carmichael_list := [561; 1105; 1729];
              out := []; calls := [] |}).
  - lia.
  - lia.
  - reflexivity.
  - reflexivity.
  - vm_compute. reflexivity.
Defined.

(** ** The scan order *)

Lemma candidates_nil (low high : Z) : high < low -> candidates low high = [].
Proof.
  intros H. unfold candidates.
  replace (Z.to_nat (high - low + 1)) with 0%nat by lia. reflexivity.
Qed.

Lemma candidates_cons (low high : Z) :
  low <= high -> candidates low high = low :: candidates (low + 1) high.
Proof.
  intros H. unfold candidates.
  replace (Z.to_nat (high - low + 1))
    with (S (Z.to_nat (high - (low + 1) + 1))) by lia.
  cbn [seq map]. f_equal; [lia|].
  rewrite <- seq_shift, map_map. apply map_ext. intros i. lia.
Qed.

Lemma candidates_app (mid high : Z) (len : nat) :
  forall low,
    Z.of_nat len = mid + 1 - low -> mid <= high ->
    candidates low high = candidates low mid ++ candidates (mid + 1) high.
Proof.
  induction len as [|len IH]; intros low Hlen Hmid.
  - rewrite (candidates_nil low mid) by lia.
    replace (mid + 1) with low by lia. reflexivity.
  - rewrite (candidates_cons low high), (candidates_cons low mid) by lia.
    cbn [app]. f_equal. apply IH; lia.
Qed.

Lemma In_candidates (low high x : Z) :
  In x (candidates low high) <-> low <= x <= high.
Proof.
  unfold candidates. rewrite in_map_iff. split.
  - intros (i & <- & Hi). apply in_seq in Hi. lia.
  - intros Hx. exists (Z.to_nat (x - low)). split; [lia|]. apply in_seq. lia.
Qed.

Lemma ascending_candidates (high : Z) (len : nat) :
  forall low, Z.of_nat len = high + 1 - low -> ascending (candidates low high) = true.
Proof.
  induction len as [|len IH]; intros low Hlen.
  - rewrite candidates_nil by lia. reflexivity.
  - rewrite candidates_cons by lia.
    specialize (IH (low + 1) ltac:(lia)).
    destruct len as [|len'].
    + rewrite candidates_nil by lia. reflexivity.
    + rewrite candidates_cons in IH |- * by lia.
      cbn [ascending] in IH |- *. rewrite IH.
      replace (low <? low + 1) with true by (symmetry; apply Z.ltb_lt; lia).
      reflexivity.
Qed.

Section ScanFacts.

Context {W : Type}.
Variable body : Z -> M W unit.

Lemma scan_chunk_S (fuel : nat) (x end_ : Z) (w : W) :
  scan_chunk body (S fuel) x end_ w =
  if x <=? end_
  then bind (body x) (fun _ => scan_chunk body fuel (u64 (x + 1)) end_) w
  else Ok tt w.
Proof. cbn [scan_chunk]. destruct (x <=? end_); reflexivity. Qed.

Lemma scan_range_S (fuel : nat) (start MAX_VAL CHUNK : Z) (w : W) :
  scan_range body (S fuel) start MAX_VAL CHUNK w =
  if start <=? MAX_VAL
  then bind (scan_chunk body (S fuel) start
               (if u64 (start + CHUNK - 1) >? MAX_VAL then MAX_VAL
                else u64 (start + CHUNK - 1)))
         (fun _ => scan_range body fuel (u64 (start + CHUNK)) MAX_VAL CHUNK) w
  else Ok tt w.
Proof. cbn [scan_range]. destruct (start <=? MAX_VAL); reflexivity. Qed.

Lemma for_each_app (xs ys : list Z) (w : W) :
  for_each body (xs ++ ys) w
  = bind (for_each body xs) (fun _ => for_each body ys) w.
Proof.
  revert w. induction xs as [|x xs IH]; intros w; [reflexivity|].
  cbn [app for_each]. unfold bind.
  destruct (body x w) as [[] w1|e w1]; [|reflexivity].
  rewrite IH. reflexivity.
Qed.

(** One chunk: without wrap-around of [++x] the inner loop visits
    [x .. end_] in order. *)
Lemma scan_chunk_for_each (end_ : Z) :
  end_ < 2 ^ 64 - 1 ->
  forall (fuel : nat) (x : Z) (w : W),
    0 <= x -> x <= end_ + 1 -> end_ - x + 1 < Z.of_nat fuel ->
    scan_chunk body fuel x end_ w = for_each body (candidates x end_) w.
Proof.
  intros Hend. induction fuel as [|f IH]; intros x w Hx Hxe Hfuel; [lia|].
  rewrite scan_chunk_S. destruct (Z.leb_spec x end_) as [Hle|Hgt].
  - rewrite candidates_cons by exact Hle. cbn [for_each]. unfold bind.
    destruct (body x w) as [[] w1|e w1]; [|reflexivity].
    rewrite u64_small by lia. apply IH; lia.
  - rewrite candidates_nil by lia. reflexivity.
Qed.

(** The chunked scan: without wrap-around of [start + CHUNK] the two loops
    together visit [start .. MAX_VAL] in order. *)
Lemma scan_range_for_each (MAX_VAL CHUNK : Z) :
  0 < CHUNK -> MAX_VAL + CHUNK < 2 ^ 64 ->
  forall (fuel : nat) (start : Z) (w : W),
    0 <= start -> start <= MAX_VAL + CHUNK ->
    0 < Z.of_nat fuel -> MAX_VAL - start + 1 < Z.of_nat fuel ->
    scan_range body fuel start MAX_VAL CHUNK w
    = for_each body (candidates start MAX_VAL) w.
Proof.
  intros Hchunk Hmax. induction fuel as [|f IH];
    intros start w Hstart Hbound Hpos Hfuel; [lia|].
  rewrite scan_range_S. destruct (Z.leb_spec start MAX_VAL) as [Hle|Hgt].
  - rewrite (u64_small (start + CHUNK - 1)), (u64_small (start + CHUNK)) by lia.
    set (end_ := if start + CHUNK - 1 >? MAX_VAL then MAX_VAL
                 else start + CHUNK - 1).
    assert (Hend : start <= end_ <= MAX_VAL /\
                   (end_ = start + CHUNK - 1 \/
                    (end_ = MAX_VAL /\ MAX_VAL < start + CHUNK))).
    { subst end_. destruct (Z.gtb_spec (start + CHUNK - 1) MAX_VAL); lia. }
    assert (Hsplit : candidates start MAX_VAL
                     = candidates start end_ ++ candidates (start + CHUNK) MAX_VAL).
    { destruct Hend as (Hse & [He | (He & Hover)]).
      - rewrite (candidates_app end_ MAX_VAL (Z.to_nat (end_ + 1 - start)) start)
          by lia.
        replace (end_ + 1) with (start + CHUNK) by lia. reflexivity.
      - rewrite (candidates_nil (start + CHUNK) MAX_VAL) by lia.
        rewrite app_nil_r, He. reflexivity. }
    rewrite Hsplit, for_each_app. unfold bind.
    rewrite scan_chunk_for_each by lia.
    destruct (for_each body (candidates start end_) w) as [[] w1|e w1];
      [|reflexivity].
    apply IH; lia.
  - rewrite candidates_nil by lia. reflexivity.
Qed.

End ScanFacts.

(** A pass over [xs] whose body writes one row per candidate writes the rows
    of [xs] in order; [inv] is carried along and [P] holds of every row. *)
Lemma for_each_rows {R} (body : Z -> M (world R) unit)
    (inv : world R -> Prop) (P : Z -> row -> Prop) (xs : list Z) :
  (forall x w, In x xs -> inv w ->
     match body x w with
     | Ok _ w' => inv w' /\ exists r, out w' = out w ++ [r] /\ row_n r = x /\ P x r
     | Stop e _ => e = OutOfFuel
     end) ->
  forall w, inv w ->
    match for_each body xs w with
    | Ok _ w' =>
        inv w' /\
        exists rows, out w' = out w ++ rows /\ map row_n rows = xs /\
                     Forall (fun r => P (row_n r) r) rows
    | Stop e _ => e = OutOfFuel
    end.
Proof.
  induction xs as [|x xs IH]; intros Hbody w Hinv.
  - cbn. split; [exact Hinv|]. exists []. rewrite app_nil_r. repeat split. constructor.
  - cbn [for_each]. unfold bind.
    pose proof (Hbody x w (or_introl eq_refl) Hinv) as Hx.
    destruct (body x w) as [[] w1|e w1]; [|exact Hx].
    destruct Hx as (Hinv1 & r & Hout1 & Hrn & HP).
    assert (Hbody' : forall y w0, In y xs -> inv w0 ->
              match body y w0 with
              | Ok _ w' => inv w' /\
                  exists r0, out w' = out w0 ++ [r0] /\ row_n r0 = y /\ P y r0
              | Stop e _ => e = OutOfFuel
              end).
    { intros y w0 Hy. apply Hbody. right. exact Hy. }
    specialize (IH Hbody' w1 Hinv1).
    destruct (for_each body xs w1) as [[] w2|e w2]; [|exact IH].
    destruct IH as (Hinv2 & rows & Hout2 & Hmap & Hall).
    split; [exact Hinv2|]. exists (r :: rows).
    split; [rewrite Hout2, Hout1, <- app_assoc; reflexivity|].
    split; [cbn [map]; rewrite Hrn, Hmap; reflexivity|].
    constructor; [rewrite Hrn; exact HP | exact Hall].
Qed.

(** The rows of a pass when nothing is known of the body beyond its return. *)
Lemma for_each_classify_rows {R} {RS : RandState R} (fuel : nat) (k : Z)
    (xs : list Z) :
  forall w w' : world R,
    for_each (classify_candidate fuel k) xs w = Ok tt w' ->
    exists rows, out w' = out w ++ rows /\ map row_n rows = xs.
Proof.
  induction xs as [|x xs IH]; intros w w' Hrun.
  - cbn in Hrun. unfold ret in Hrun. injection Hrun as <-.
    exists []. rewrite app_nil_r. split; reflexivity.
  - cbn [for_each] in Hrun. apply bind_Ok in Hrun.
    destruct Hrun as ([] & w1 & Hx & Hrest).
    apply classify_candidate_row in Hx. destruct Hx as (_ & r & Hout1 & Hrn).
    apply IH in Hrest. destruct Hrest as (rows & Hout2 & Hmap).
    exists (r :: rows). split.
    + rewrite Hout2, Hout1, <- app_assoc. reflexivity.
    + cbn [map]. rewrite Hrn, Hmap. reflexivity.
Qed.

(** C7 (within the 64-bit range) -- Chunking is correctness-neutral.  For
    [0 <= low <= high] and a chunk size [> 0] with
    [high + chunk_size < 2^64] (no 64-bit wrap-around; the program's 1,
    2^32 - 1 and 10^6 satisfy it), the chunked loops of [main] behave exactly
    as one ascending pass over [low .. high]; a run that returns has written
    one row per integer of [low .. high], in strictly increasing order
    without gaps or duplicates. *)
Theorem chunked_scan_is_unchunked_scan {R} {RS : RandState R}
    (fuel : nat) (k low high chunk_size : Z) (w : world R) :
  0 <= low -> low <= high -> 0 < chunk_size ->
  high + chunk_size < 2 ^ 64 ->
  high - low + 1 < Z.of_nat fuel ->
  main_loop fuel k low high chunk_size w
    = unchunked_scan (classify_candidate fuel k) low high w /\
  (forall w', main_loop fuel k low high chunk_size w = Ok tt w' ->
     exists rows, out w' = out w ++ rows /\
                  map row_n rows = candidates low high) /\
  ascending (candidates low high) = true /\
  (forall x, In x (candidates low high) <-> low <= x <= high).
Proof.
  intros Hlow Hle Hchunk Hwrap Hfuel.
  assert (Heq : main_loop fuel k low high chunk_size w
                = unchunked_scan (classify_candidate fuel k) low high w).
  { unfold main_loop, unchunked_scan. apply scan_range_for_each; lia. }
  split; [exact Heq|]. split; [|split].
  - intros w' Hrun. rewrite Heq in Hrun. unfold unchunked_scan in Hrun.
    apply (for_each_classify_rows fuel k _ w w' Hrun).
  - apply (ascending_candidates high (Z.to_nat (high + 1 - low))). lia.
  - intros x. apply In_candidates.
Qed.

Lemma chunked_scan_is_unchunked_scan_witness :
  exists w',
    main_loop 64 5 1 10 3 (initial_world (repeat 2519 40)) = Ok tt w' /\
    unchunked_scan (classify_candidate 64 5) 1 10
      (initial_world (repeat 2519 40)) = Ok tt w' /\
    exists rows,
      out w' = out (initial_world (repeat 2519 40)) ++ rows /\
      map row_n rows = candidates 1 10.
Proof.
  destruct (chunked_scan_is_unchunked_scan 64 5 1 10 3
              (initial_world (repeat 2519 40)))
    as (Heq & Hrows & _); [lia | lia | lia | lia | lia |].
  eexists. split; [vm_compute; reflexivity|].
  split; [rewrite <- Heq; vm_compute; reflexivity|].
  apply Hrows. vm_compute. reflexivity.
Defined.

(** Without the bound C7 fails.  For the range [5 .. 5] and
    [chunk_size = 2^64 - 3] the first [end] wraps to 1, so the first chunk is
    empty; [start += CHUNK] then wraps to 2, and the second chunk runs from 2
    to 5.  The run returns with the rows of 2, 3, 4 and 5, whereas the
    unchunked scan of [5 .. 5] writes the row of 5 alone. *)
Lemma chunked_scan_wraps_around :
  exists w1 w2,
    main_loop 64 16 5 5 (2 ^ 64 - 3) (initial_world (repeat 2519 60)) = Ok tt w1 /\
    map row_n (out w1) = [2; 3; 4; 5] /\
    unchunked_scan (classify_candidate 64 16) 5 5
      (initial_world (repeat 2519 60)) = Ok tt w2 /\
    map row_n (out w2) = [5] /\
    main_loop 64 16 5 5 (2 ^ 64 - 3) (initial_world (repeat 2519 60))
    <> unchunked_scan (classify_candidate 64 16) 5 5
         (initial_world (repeat 2519 60)).
Proof.
  eexists. eexists.
  split; [vm_compute; reflexivity|].
  split; [reflexivity|].
  split; [vm_compute; reflexivity|].
  split; [reflexivity|].
  vm_compute. intros H. discriminate H.
Qed.

(** ** The scenario [1 .. 10] with five trials *)

Lemma admissible_in_bases (n a : Z) : admissible n a -> In a (bases n).
Proof.
  intros (Hg & r & Hr & ->). unfold bases. apply filter_In. split.
  - apply in_map_iff. exists (Z.to_nat r). split; [f_equal; lia|].
    apply in_seq. lia.
  - apply Z.eqb_eq. exact Hg.
Qed.

Lemma all_bases_pass_spec (n : Z) :
  all_bases_pass n = true ->
  forall b, admissible n b -> mpz_powm b (n - 1) n = 1.
Proof.
  unfold all_bases_pass. rewrite forallb_forall. intros H b Hb.
  apply Z.eqb_eq. apply H. apply admissible_in_bases. exact Hb.
Qed.

Lemma all_bases_fail_spec (n : Z) :
  all_bases_fail n = true ->
  forall b, admissible n b -> mpz_powm b (n - 1) n <> 1.
Proof.
  unfold all_bases_fail. rewrite forallb_forall. intros H b Hb.
  apply Z.eqb_neq. apply negb_true_iff. apply H.
  apply admissible_in_bases. exact Hb.
Qed.

Section Scenario.

Context {R : Type} {RS : RandState R}.

(** A candidate all of whose bases pass and which is not in the list is
    reported as a true prime. *)
Lemma classify_candidate_all_pass (fuel : nat) (k x : Z) (w w' : world R) :
  0 < x -> (64 <= fuel)%nat -> carmichael_count w < 2 ^ 63 ->
  all_bases_pass x = true -> ~ In x (carmichael_list w) ->
  classify_candidate fuel k x w = Ok tt w' ->
  carmichael_list w' = carmichael_list w /\
  exists r, out w' = out w ++ [r] /\ row_n r = x /\
            row_is_prime r = 1 /\ row_is_really_prime r = 1.
Proof.
  intros Hx Hfuel Hlen Hpass Hnot Hrun.
  pose proof (classify_candidate_spec fuel k x w Hx Hfuel Hlen) as Hs.
  rewrite Hrun in Hs.
  destruct Hs as (v & a & w1 & j & r & Hf & (Hl & Ho & _) & Hn & Hp & Hcase).
  destruct (fermat_test_loop_all_pass x (x - 1) fuel (Z.to_nat k) w w1 v a Hx
              (all_bases_pass_spec x Hpass) Hf) as (-> & ->).
  destruct Hcase as [(Hv & _) | (_ & _ & b & Hsound & _ & Hrp & ->)]; [discriminate Hv|].
  cbn [carmichael_list out add_row add_call]. split; [exact Hl|].
  exists r. rewrite Ho. split; [reflexivity|]. split; [exact Hn|]. split; [exact Hp|].
  rewrite Hrp. destruct b; [|reflexivity]. exfalso. apply Hnot. apply Hsound. reflexivity.
Qed.

(** A candidate all of whose bases fail is reported composite after the
    first trial. *)
Lemma classify_candidate_all_fail (fuel : nat) (k x : Z) (w w' : world R) :
  0 < x -> (64 <= fuel)%nat -> carmichael_count w < 2 ^ 63 -> 0 < k ->
  all_bases_fail x = true ->
  classify_candidate fuel k x w = Ok tt w' ->
  carmichael_list w' = carmichael_list w /\
  exists r, out w' = out w ++ [r] /\ row_n r = x /\
            row_is_prime r = 0 /\ row_is_really_prime r = 0.
Proof.
  intros Hx Hfuel Hlen Hk Hfail Hrun.
  pose proof (classify_candidate_spec fuel k x w Hx Hfuel Hlen) as Hs.
  rewrite Hrun in Hs.
  destruct Hs as (v & a & w1 & j & r & Hf & (Hl & Ho & _) & Hn & Hp & Hcase).
  assert (Hv0 : v = 0).
  { unfold fermat_test_gmp in Hf.
    destruct (Z.to_nat k) as [|it] eqn:Hit; [lia|].
    apply (fermat_test_loop_all_fail x (x - 1) fuel it w w1 v a Hx
             (all_bases_fail_spec x Hfail) Hf). }
  rewrite Hv0 in Hcase, Hp.
  destruct Hcase as [(_ & _ & Hrp & ->) | (Hv1 & _)]; [|discriminate Hv1].
  cbn [carmichael_list out add_row]. split; [exact Hl|].
  exists r. rewrite Ho. repeat split; assumption.
Qed.

(** The only way a classification of a positive candidate stops is a sampler
    call that is still running. *)
Lemma classify_candidate_stop (fuel : nat) (k x : Z) (w w' : world R)
    (e : failure) :
  0 < x -> (64 <= fuel)%nat -> carmichael_count w < 2 ^ 63 ->
  classify_candidate fuel k x w = Stop e w' -> e = OutOfFuel.
Proof.
  intros Hx Hfuel Hlen Hrun.
  pose proof (classify_candidate_spec fuel k x w Hx Hfuel Hlen) as Hs.
  rewrite Hrun in Hs. apply Hs.
Qed.

End Scenario.

(** Settle a candidate whose verdict does not depend on the draws; the
    check of its bases is by computation. *)
Ltac always_composite Hrun :=
  let Hl1 := fresh "Hl1" in
  match type of Hrun with
  | classify_candidate ?fuel ?k ?x ?w0 = Ok tt ?w1 =>
      destruct (classify_candidate_all_fail fuel k x w0 w1)
        as (Hl1 & r & Ho & Hn & _ & Hrp);
      [lia | assumption | assumption | lia | vm_compute; reflexivity
      | exact Hrun |]
  end.

Ltac always_probable_prime Hrun :=
  let Hl1 := fresh "Hl1" in
  match type of Hrun with
  | classify_candidate ?fuel ?k ?x ?w0 = Ok tt ?w1 =>
      destruct (classify_candidate_all_pass fuel k x w0 w1)
        as (Hl1 & r & Ho & Hn & _ & Hrp);
      [lia | assumption | assumption | vm_compute; reflexivity
      | | exact Hrun |]
  end.

(** C8 (for the candidates other than 9, on runs that return) -- The scan
    of [1 .. 10] with five trials.  With a
    Carmichael list that contains none of 2, 3, 5, 7, for every generator
    and every generator state, a run that returns has written exactly ten
    rows, for 1, 2, ..., 10 in this order, with [is_really_prime = 1] for 2,
    3, 5 and 7 and [is_really_prime = 0] for 1, 4, 6, 8 and 10 (nothing is
    said of the flag of 9); and a run that does not return is held up in a
    sampler call that keeps rejecting its draws. *)
Theorem scan_1_to_10 {R} {RS : RandState R}
    (fuel : nat) (chunk_size : Z) (w : world R) :
  (64 <= fuel)%nat -> 0 < chunk_size -> 10 + chunk_size < 2 ^ 64 ->
  carmichael_count w < 2 ^ 63 ->
  (forall p, In p [2; 3; 5; 7] -> ~ In p (carmichael_list w)) ->
  (forall w', main_loop fuel 5 1 10 chunk_size w = Ok tt w' ->
     exists rows,
       out w' = out w ++ rows /\
       map row_n rows = [1; 2; 3; 4; 5; 6; 7; 8; 9; 10] /\
       forall r, In r rows ->
         (In (row_n r) [2; 3; 5; 7] -> row_is_really_prime r = 1) /\
         (In (row_n r) [1; 4; 6; 8; 10] -> row_is_really_prime r = 0)) /\
  (forall e w', main_loop fuel 5 1 10 chunk_size w = Stop e w' -> e = OutOfFuel).
Proof.
  intros Hfuel Hchunk Hwrap Hlen Hnot.
  assert (Heq : main_loop fuel 5 1 10 chunk_size w
                = for_each (classify_candidate fuel 5) (candidates 1 10) w).
  { unfold main_loop. apply scan_range_for_each; lia. }
  set (P := fun (x : Z) (r : row) =>
              (In x [2; 3; 5; 7] -> row_is_really_prime r = 1) /\
              (In x [1; 4; 6; 8; 10] -> row_is_really_prime r = 0)).
  pose proof (for_each_rows (classify_candidate fuel 5)
                (fun w0 => carmichael_list w0 = carmichael_list w) P
                (candidates 1 10)) as Hrows.
  assert (Hbody : forall x w0, In x (candidates 1 10) ->
            carmichael_list w0 = carmichael_list w ->
            match classify_candidate fuel 5 x w0 with
            | Ok _ w' => carmichael_list w' = carmichael_list w /\
                exists r, out w' = out w0 ++ [r] /\ row_n r = x /\ P x r
            | Stop e _ => e = OutOfFuel
            end).
  { intros x w0 Hx Hl0. apply In_candidates in Hx.
    assert (Hlen0 : carmichael_count w0 < 2 ^ 63).
    { unfold carmichael_count in *. rewrite Hl0. exact Hlen. }
    destruct (classify_candidate fuel 5 x w0) as [[] w1|e w1] eqn:Hrun.
    - assert (Hc : x = 1 \/ x = 2 \/ x = 3 \/ x = 4 \/ x = 5 \/ x = 6 \/
                   x = 7 \/ x = 8 \/ x = 9 \/ x = 10) by lia.
      subst P. cbv beta.
      destruct Hc as [->|[->|[->|[->|[->|[->|[->|[->|[->| ->]]]]]]]]].
      all: try (always_composite Hrun;
                split; [congruence|]; exists r;
                split; [exact Ho|]; split; [exact Hn|];
                split; [cbn [In]; lia | intros _; exact Hrp]).
      all: try (always_probable_prime Hrun;
                [rewrite Hl0; apply Hnot; cbn [In]; lia|];
                split; [congruence|]; exists r;
                split; [exact Ho|]; split; [exact Hn|];
                split; [intros _; exact Hrp | cbn [In]; lia]).
      destruct (classify_candidate_row fuel 5 9 w0 w1 Hrun) as (Hl1 & r & Ho & Hn).
      split; [congruence|]. exists r. split; [exact Ho|]. split; [exact Hn|].
      split; cbn [In]; lia.
    - apply (classify_candidate_stop fuel 5 x w0 w1 e); [lia | exact Hfuel | exact Hlen0 | exact Hrun]. }
  specialize (Hrows Hbody w eq_refl). rewrite <- Heq in Hrows.
  split.
  - intros w' Hrun. rewrite Hrun in Hrows.
    destruct Hrows as (_ & rows & Hout & Hmap & Hall).
    exists rows. split; [exact Hout|]. split; [exact Hmap|].
    intros r Hr. rewrite Forall_forall in Hall. exact (Hall r Hr).
  - intros e w' Hrun. rewrite Hrun in Hrows. exact Hrows.
Qed.

Lemma scan_1_to_10_witness :
  exists w',
    main_loop 64 5 1 10 1000000
      {| rng := [0; 1; 1; 1; 1; 1; 2; 2; 2; 2; 2; 3; 2; 2; 2; 2; 2; 5;
                 2; 2; 2; 2; 2; 3; 2; 3];
         carmichael_list := [561; 1105; 1729]; out := []; calls := [] |}
    = Ok tt w' /\
    exists rows,
      out w' = [] ++ rows /\
      map row_n rows = [1; 2; 3; 4; 5; 6; 7; 8; 9; 10] /\
      forall r, In r rows ->
        (In (row_n r) [2; 3; 5; 7] -> row_is_really_prime r = 1) /\
        (In (row_n r) [1; 4; 6; 8; 10] -> row_is_really_prime r = 0).
Proof.
  destruct (scan_1_to_10 64 1000000
              {| rng := [0; 1; 1; 1; 1; 1; 2; 2; 2; 2; 2; 3; 2; 2; 2; 2; 2; 5;
                         2; 2; 2; 2; 2; 3; 2; 3];
                 carmichael_list := [561; 1105; 1729]; out := []; calls := [] |})
    as (Hrows & _).
  - lia.
  - lia.
  - lia.
  - reflexivity.
  - cbn [carmichael_list In]. lia.
  - eexists. split; [vm_compute; reflexivity|].
    apply Hrows. vm_compute. reflexivity.
Defined.

(** For the candidate 9 the scenario C8 can go wrong: with a generator whose
    draw for the bound [n] is always [n - 1], the five bases drawn for 9 are
    all 8, and [8^8 mod 9 = 1]; the run returns with ten rows and reports
    the composite 9 as a true prime. *)
Lemma scan_1_to_10_flags_9 :
  exists w' r,
    main_loop 64 5 1 10 1000000
      {| rng := repeat 2519 40; carmichael_list := [561; 1105; 1729];
         out := []; calls := [] |} = Ok tt w' /\
    map row_n (out w') = [1; 2; 3; 4; 5; 6; 7; 8; 9; 10] /\
    In r (out w') /\ row_n r = 9 /\ ~ Z.prime 9 /\
    row_is_prime r = 1 /\ row_is_really_prime r = 1.
Proof.
  eexists. exists {| row_n := 9; row_bit_len := 4; row_is_prime := 1;
                     row_witness := None; row_is_really_prime := 1 |}.
  split; [vm_compute; reflexivity|].
  split; [reflexivity|].
  split; [cbn; tauto|].
  split; [reflexivity|].
  split; [|split; reflexivity].
  intros (_ & H). apply (H 3); [lia|]. exists 3. reflexivity.
Qed.

(** ** The program's own constants *)

(** In [main] the scan runs from 1 to [2^32 - 1] in chunks of [10^6]; these
    values are far from the 64-bit limit, so the run of [main] is the load
    of the list followed by one ascending pass over [1 .. 2^32 - 1]. *)
Lemma main_scan_order {R} {RS : RandState R}
    (fuel : nat) (stream : list Z) (seeded : R) (w : world R) :
  2 ^ 32 < Z.of_nat fuel ->
  main fuel (Some stream) true seeded w
  = bind (load_carmichael (Some stream) (2 ^ 32 - 1))
      (fun _ => bind (init_rng seeded)
         (fun _ => bind (unchunked_scan (classify_candidate fuel 16) 1 (2 ^ 32 - 1))
            (fun _ => ret 0))) w.
Proof.
  intros Hfuel. unfold main.
  change (u64 (u64 (Z.shiftl 1 32) - 1)) with (2 ^ 32 - 1). cbv zeta.
  unfold bind, load_carmichael, init_rng. cbn [negb].
  unfold main_loop, unchunked_scan.
  rewrite scan_range_for_each by lia. reflexivity.
Qed.

(** * Further properties of the program *)

(** ** Loading: capacity and truncation *)




Lemma prefix_upto_all (max_val : Z) (s : list Z) :
  Forall (fun v => v <= max_val) s -> prefix_upto max_val s = s.
Proof.
  induction 1 as [|v s Hv _ IH]; cbn [prefix_upto]; [reflexivity|].
  destruct (Z.gtb_spec v max_val); [lia|]. rewrite IH. reflexivity.
Qed.

Lemma prefix_upto_cut (max_val x : Z) (s1 s2 : list Z) :
  Forall (fun v => v <= max_val) s1 -> max_val < x ->
  prefix_upto max_val (s1 ++ x :: s2) = s1.
Proof.
  intros Hs1 Hx. induction Hs1 as [|v s Hv _ IH]; cbn [prefix_upto app].
  - destruct (Z.gtb_spec x max_val); [reflexivity | lia].
  - destruct (Z.gtb_spec v max_val); [lia|]. rewrite IH. reflexivity.
Qed.

(** X2 -- The load stops for good at the first value above [max_val]: at
    start-up, whatever follows that value in the file (smaller values
    included, the file is not checked to be sorted) is never stored, and a
    file without such a value is stored whole. *)
Theorem load_stops_at_first_large {R} (s1 s2 : list Z) (x max_val : Z)
    (w : world R) :
  carmichael_list w = [] ->
  Forall (fun v => v <= max_val) s1 -> max_val < x ->
  load_carmichael (Some (s1 ++ x :: s2)) max_val w
    = Ok tt (set_carmichael_list s1 w) /\
  load_carmichael (Some s1) max_val w = Ok tt (set_carmichael_list s1 w).
Proof.
  intros Hw Hs1 Hx. unfold load_carmichael.
  rewrite !load_loop_prefix, Hw. cbn [app].
  rewrite (prefix_upto_cut max_val x s1 s2 Hs1 Hx), (prefix_upto_all max_val s1 Hs1).
  split; reflexivity.
Qed.

Lemma load_stops_at_first_large_witness :
  load_carmichael (Some ([561; 1105] ++ 2465 :: [1729; 2821])) 2000 (initial_world tt)
    = Ok tt (set_carmichael_list [561; 1105] (initial_world tt)) /\
  load_carmichael (Some [561; 1105]) 2000 (initial_world tt)
    = Ok tt (set_carmichael_list [561; 1105] (initial_world tt)).
Proof.
  apply (load_stops_at_first_large [561; 1105] [1729; 2821] 2465 2000
           (initial_world tt)).
  - reflexivity.
  - repeat constructor; lia.
  - lia.
Defined.

(** ** The oracle on arbitrary arrays *)

Lemma array_get_In (l : list Z) (i v : Z) : array_get l i = Some v -> In v l.
Proof.
  unfold array_get. destruct (i <? 0); [discriminate|].
  apply nth_error_In.
Qed.

(** X3 -- [is_carmichael] never answers [true] for a value that is not in
    the array, whether the array is sorted or not: the final comparison
    [carmichael_list[lo] == n] guards every positive answer. *)
Theorem is_carmichael_true_is_member {R} (fuel : nat) (n : Z) (w w' : world R) :
  is_carmichael fuel n w = Ok true w' -> In n (carmichael_list w).
Proof.
  unfold is_carmichael, bind, log_call.
  change (carmichael_list (add_call (EvLookup n) w)) with (carmichael_list w).
  change (carmichael_count (add_call (EvLookup n) w)) with (carmichael_count w).
  destruct (is_carmichael_loop fuel (carmichael_list w) n 0 (carmichael_count w))
    as [[lo|]|]; try discriminate.
  destruct (lo <? carmichael_count w); [|discriminate].
  destruct (array_get (carmichael_list w) lo) as [v|] eqn:Hv; [|discriminate].
  intros H. injection H as Heq _. apply Z.eqb_eq in Heq. subst v.
  apply (array_get_In _ lo). exact Hv.
Qed.

Lemma is_carmichael_true_is_member_witness : In 5 [3; 5; 1].
Proof.
  apply (is_carmichael_true_is_member 64 5
           {| rng := tt; carmichael_list := [3; 5; 1]; out := []; calls := [] |}
           {| rng := tt; carmichael_list := [3; 5; 1]; out := [];
              calls := [EvLookup 5] |}).
  vm_compute. reflexivity.
Defined.

(** ** The sampler and the trial loop *)

Lemma generate_random_coprime_loop_calls {R} {RS : RandState R} (n : Z)
    (fuel : nat) :
  forall (a : Z) (w w' : world R),
    generate_random_coprime_loop fuel n w = Ok a w' -> calls w' = calls w.
Proof.
  induction fuel as [|f IH]; intros a w w' Hrun; [discriminate Hrun|].
  rewrite generate_random_coprime_loop_S in Hrun.
  apply bind_Ok in Hrun. destruct Hrun as (r & w1 & Hdraw & Hrest).
  assert (Hc1 : calls w1 = calls w).
  { unfold urandomm in Hdraw. destruct (n =? 0); [discriminate|].
    destruct (mpz_urandomm (rng w) n) as [b s']. injection Hdraw as _ <-.
    reflexivity. }
  cbv zeta in Hrest. destruct (negb _) in Hrest.
  - apply IH in Hrest. congruence.
  - unfold ret in Hrest. injection Hrest as _ <-. exact Hc1.
Qed.

(** X4 -- What the sampler guarantees for every modulus [n >= 1]: the base
    it returns is coprime to [n], at least 2, and at most [n - 1] or, for
    the small moduli where the shift of the draws 0 and 1 leaves the range,
    at most 3; the call changes nothing but the generator state and logs
    itself once. *)
Theorem generate_random_coprime_guarantee {R} {RS : RandState R}
    (fuel : nat) (n a : Z) (w w' : world R) :
  1 <= n ->
  generate_random_coprime fuel n w = Ok a w' ->
  Z.gcd a n = 1 /\ 2 <= a <= Z.max 3 (n - 1) /\
  carmichael_list w' = carmichael_list w /\ out w' = out w /\
  calls w' = EvSample n :: calls w.
Proof.
  intros Hn Hrun.
  pose proof (generate_random_coprime_spec n fuel w ltac:(lia)) as Hs.
  rewrite Hrun in Hs. destruct Hs as ((Hg & r & Hr & ->) & Hl & Ho & Hc).
  split; [exact Hg|]. split.
  - unfold shifted. destruct (Z.ltb_spec r 2); lia.
  - split; [exact Hl|]. split; [exact Ho | exact Hc].
Qed.

Lemma generate_random_coprime_guarantee_witness :
  Z.gcd 7 10 = 1 /\ 2 <= 7 <= Z.max 3 (10 - 1) /\
  carmichael_list (add_call (EvSample 10) (initial_world (@nil Z))) = [] /\
  out (add_call (EvSample 10) (initial_world (@nil Z))) = [] /\
  calls (add_call (EvSample 10) (initial_world (@nil Z))) = EvSample 10 :: [].
Proof.
  apply (generate_random_coprime_guarantee 3 10 7 (initial_world [4; 5; 7])
           (add_call (EvSample 10) (initial_world []))).
  - lia.
  - vm_compute. reflexivity.
Defined.

(** X5 -- The trial loop short-circuits.  A test that returns verdict 1 has
    made exactly [k] sampler calls (none for [k <= 0]) and cleared the
    witness; a test that returns verdict 0 has made between 1 and [k] calls
    and stopped at the first failing base.  No other verdict is returned. *)
Theorem fermat_test_gmp_trial_count {R} {RS : RandState R}
    (fuel : nat) (n k v a : Z) (w w' : world R) :
  fermat_test_gmp fuel n k w = Ok (v, a) w' ->
  exists j : nat,
    calls w' = repeat (EvSample n) j ++ calls w /\
    ((v = 1 /\ a = 0 /\ j = Z.to_nat k) \/
     (v = 0 /\ mpz_powm a (n - 1) n <> 1 /\ (1 <= j <= Z.to_nat k)%nat)).
Proof.
  unfold fermat_test_gmp. generalize (Z.to_nat k) as iters.
  intros iters. revert w. induction iters as [|it IH]; intros w Hrun.
  - cbn in Hrun. unfold ret in Hrun. injection Hrun as <- <- <-.
    exists 0%nat. split; [reflexivity|]. left. repeat split.
  - rewrite fermat_test_loop_S in Hrun.
    apply bind_Ok in Hrun. destruct Hrun as (b & w1 & Hgen & Hrest).
    assert (Hc1 : calls w1 = EvSample n :: calls w).
    { unfold generate_random_coprime, bind, log_call in Hgen.
      apply generate_random_coprime_loop_calls in Hgen. exact Hgen. }
    destruct (Z.eqb_spec (mpz_powm b (n - 1) n) 1) as [Hone|Hne];
      cbn [negb] in Hrest.
    + apply IH in Hrest. destruct Hrest as (j & Hc & Hcase).
      exists (S j). split.
      * rewrite Hc, Hc1. cbn [repeat]. rewrite repeat_cons, <- app_assoc.
        reflexivity.
      * destruct Hcase as [(Hv & Ha & Hj) | (Hv & Hp & Hj)].
        -- left. repeat split; [exact Hv | exact Ha | lia].
        -- right. repeat split; [exact Hv | exact Hp | lia | lia].
    + unfold ret in Hrest. injection Hrest as <- <- <-.
      exists 1%nat. split; [rewrite Hc1; reflexivity|].
      right. repeat split; [exact Hne | lia | lia].
Qed.

Lemma fermat_test_gmp_trial_count_witness :
  exists j : nat,
    calls (add_call (EvSample 9) (add_call (EvSample 9) (initial_world (@nil Z))))
      = repeat (EvSample 9) j ++ calls (initial_world [8; 2]) /\
    ((0 = 1 /\ 2 = 0 /\ j = Z.to_nat 16) \/
     (0 = 0 /\ mpz_powm 2 (9 - 1) 9 <> 1 /\ (1 <= j <= Z.to_nat 16)%nat)).
Proof.
  apply (fermat_test_gmp_trial_count 1 9 16 0 2 (initial_world [8; 2])).
  vm_compute. reflexivity.
Defined.

(** ** The rows *)

Lemma bit_len_bounds (x : Z) :
  0 < x ->
  let bit_len := if x =? 0 then 1 else 64 - clzll x in
  2 ^ (bit_len - 1) <= x < 2 ^ bit_len /\ (x < 2 ^ 64 -> 1 <= bit_len <= 64).
Proof.
  intros Hx. cbv zeta. destruct (Z.eqb_spec x 0) as [->|_]; [lia|].
  unfold clzll. pose proof (Z.log2_spec x Hx) as Hlog.
  pose proof (Z.log2_nonneg x) as Hnn.
  replace (64 - (63 - Z.log2 x) - 1) with (Z.log2 x) by lia.
  replace (64 - (63 - Z.log2 x)) with (Z.succ (Z.log2 x)) by lia.
  split; [exact Hlog|]. intros Hmax.
  assert (Z.log2 x < 64) by (apply Z.log2_lt_pow2; lia). lia.
Qed.

(** X6 -- The row written for a positive candidate is well formed.  Its bit
    length [b] satisfies [2^(b-1) <= x < 2^b] (so [1 <= b <= 64] for a
    64-bit [x]); the witness column is empty exactly on the rows with
    [is_prime = 1]; and on a row with [is_prime = 0] the witness printed is
    a base coprime to [x] with [a^(x-1) mod x <> 1], [x] is indeed not
    prime, and [is_really_prime = 0]. *)
Theorem classify_candidate_row_well_formed {R} {RS : RandState R}
    (fuel : nat) (k x : Z) (w w' : world R) :
  0 < x ->
  classify_candidate fuel k x w = Ok tt w' ->
  exists r,
    out w' = out w ++ [r] /\ row_n r = x /\
    2 ^ (row_bit_len r - 1) <= x < 2 ^ row_bit_len r /\
    (x < 2 ^ 64 -> 1 <= row_bit_len r <= 64) /\
    ((row_is_prime r = 1 /\ row_witness r = None) \/
     (row_is_prime r = 0 /\ row_is_really_prime r = 0 /\ ~ Z.prime x /\
      exists a, row_witness r = Some a /\ Z.gcd a x = 1 /\
                a ^ (x - 1) mod x <> 1)).
Proof.
  intros Hx Hrun. unfold classify_candidate in Hrun.
  apply bind_Ok in Hrun. destruct Hrun as ([v a] & w1 & Hf & Hrest).
  pose proof (fermat_test_loop_spec x (x - 1) fuel Hx (Z.to_nat k) w) as Hs.
  unfold fermat_test_gmp in Hf. rewrite Hf in Hs.
  destruct Hs as ((j & _ & _ & Ho1 & _) & Hres).
  apply bind_Ok in Hrest. destruct Hrest as (rp & w2 & Hrp & Hemit).
  destruct (bit_len_bounds x Hx) as (Hb1 & Hb2).
  destruct Hres as [(-> & ->) | (-> & (Hg & _) & Hne)];
    cbn [Z.eqb negb] in Hrp, Hemit.
  - apply bind_Ok in Hrp. destruct Hrp as (c & w3 & Hc & Hret).
    apply is_carmichael_frame in Hc. subst w3.
    unfold ret in Hret. injection Hret as _ <-.
    unfold emit in Hemit. injection Hemit as <-.
    eexists. cbn [out add_row add_call row_n row_bit_len row_is_prime row_witness].
    rewrite Ho1. split; [reflexivity|]. split; [reflexivity|].
    split; [exact Hb1|]. split; [exact Hb2|]. left. split; reflexivity.
  - unfold ret in Hrp. injection Hrp as <- <-.
    unfold emit in Hemit. injection Hemit as <-.
    eexists. cbn [out add_row row_n row_bit_len row_is_prime row_witness
                  row_is_really_prime].
    rewrite Ho1. split; [reflexivity|]. split; [reflexivity|].
    split; [exact Hb1|]. split; [exact Hb2|]. right.
    split; [reflexivity|]. split; [reflexivity|]. split.
    + intros Hp. apply Hne. apply mpz_powm_prime; assumption.
    + exists a. split; [reflexivity|]. split; [exact Hg | exact Hne].
Qed.

Lemma classify_candidate_row_well_formed_witness :
  exists w' r,
    classify_candidate 64 16 9 (initial_world [8; 2]) = Ok tt w' /\
    out w' = out (initial_world [8; 2]) ++ [r] /\ row_n r = 9 /\
    2 ^ (row_bit_len r - 1) <= 9 < 2 ^ row_bit_len r /\
    (9 < 2 ^ 64 -> 1 <= row_bit_len r <= 64) /\
    ((row_is_prime r = 1 /\ row_witness r = None) \/
     (row_is_prime r = 0 /\ row_is_really_prime r = 0 /\ ~ Z.prime 9 /\
      exists a, row_witness r = Some a /\ Z.gcd a 9 = 1 /\
                a ^ (9 - 1) mod 9 <> 1)).
Proof.
  eexists.
  assert (Hrun : classify_candidate 64 16 9 (initial_world [8; 2]) = Ok tt _)
    by (vm_compute; reflexivity).
  destruct (classify_candidate_row_well_formed 64 16 9 (initial_world [8; 2]) _
              ltac:(lia) Hrun) as (r & Hr).
  exists r. split; [exact Hrun | exact Hr].
Defined.

(** X7 -- No prime is lost.  For a prime candidate that is not in the
    Carmichael list, every classification that returns writes a row with
    [is_prime = 1], an empty witness column and [is_really_prime = 1]; and
    for a prime candidate of at least 5 the classification does return,
    whatever the generator draws. *)
Theorem prime_candidate_reported_prime {R} {RS : RandState R}
    (fuel : nat) (k x : Z) (w : world R) :
  Z.prime x -> (64 <= fuel)%nat -> carmichael_count w < 2 ^ 63 ->
  ~ In x (carmichael_list w) ->
  (forall w', classify_candidate fuel k x w = Ok tt w' ->
     exists r, out w' = out w ++ [r] /\ row_n r = x /\
               row_is_prime r = 1 /\ row_witness r = None /\
               row_is_really_prime r = 1) /\
  (5 <= x -> exists w', classify_candidate fuel k x w = Ok tt w').
Proof.
  intros Hp Hfuel Hlen Hnot. pose proof (Z.prime_ge_2 x Hp) as Hx.
  pose proof (classify_candidate_spec fuel k x w ltac:(lia) Hfuel Hlen) as Hs.
  assert (Hpass : forall b, admissible x b -> mpz_powm b (x - 1) x = 1).
  { intros b (Hg & _). apply mpz_powm_prime; assumption. }
  split.
  - intros w' Hrun. rewrite Hrun in Hs.
    destruct Hs as (v & a & w1 & j & r & Hf & (_ & Ho & _) & Hn & Hip & Hcase).
    destruct (fermat_test_loop_all_pass x (x - 1) fuel (Z.to_nat k) w w1 v a
                ltac:(lia) Hpass Hf) as (-> & ->).
    destruct Hcase as [(Hv & _) | (_ & Hw & b & Hsound & _ & Hrp & ->)];
      [discriminate Hv|].
    exists r. cbn [out add_row add_call]. rewrite Ho.
    split; [reflexivity|]. split; [exact Hn|]. split; [exact Hip|].
    split; [exact Hw|]. rewrite Hrp.
    destruct b; [|reflexivity]. exfalso. apply Hnot. apply Hsound. reflexivity.
  - intros H5. destruct fuel as [|f]; [lia|].
    destruct (classify_candidate (S f) k x w) as [[] w'|e w'] eqn:Hrun.
    + exists w'. reflexivity.
    + exfalso. destruct Hs as (He & j & Hsj).
      destruct (fermat_test_loop_prime x f (Z.to_nat k) Hp H5 w) as (w1 & Hf).
      unfold classify_candidate, bind at 1 in Hrun.
      unfold fermat_test_gmp in Hrun. rewrite Hf in Hrun.
      cbn [Z.eqb negb] in Hrun.
      assert (Hlen1 : carmichael_count w1 < 2 ^ 63).
      { apply fermat_test_loop_frame in Hf. unfold carmichael_count in *.
        destruct Hf as (Hl & _). rewrite Hl. exact Hlen. }
      destruct (is_carmichael_spec (S f) x w1 Hfuel Hlen1) as (b & Hb & _).
      unfold bind in Hrun. rewrite Hb in Hrun. discriminate Hrun.
Qed.

Lemma prime_candidate_reported_prime_witness :
  exists w' r,
    classify_candidate 64 16 7
      {| rng := [3]; carmichael_list := [561; 1105]; out := []; calls := [] |}
    = Ok tt w' /\
    out w' = [] ++ [r] /\ row_n r = 7 /\ row_is_prime r = 1 /\
    row_witness r = None /\ row_is_really_prime r = 1.
Proof.
  destruct (prime_candidate_reported_prime 64 16 7
              {| rng := [3]; carmichael_list := [561; 1105]; out := [];
                 calls := [] |} prime_7 ltac:(lia) eq_refl)
    as (Hrow & Hret).
  - cbn [carmichael_list In]. lia.
  - destruct (Hret ltac:(lia)) as (w' & Hrun).
    destruct (Hrow w' Hrun) as (r & Hr).
    exists w', r. split; [exact Hrun | exact Hr].
Defined.

(** ** Candidates whose verdict does not depend on the draws *)

(** 561 = 3 * 11 * 17 is a Carmichael number: 560 is a multiple of 2, of
    10 and of 16, so Fermat's little theorem gives the congruence modulo
    each prime factor, and the factors are pairwise coprime. *)










(** X9 -- With no trial ([k <= 0]) the loop body never runs: no sampler
    call, no draw, no trap even for the candidate 0; every candidate is
    written as probably prime and the oracle alone decides
    [is_really_prime]. *)
Theorem no_trials_everything_probably_prime {R} {RS : RandState R}
    (fuel : nat) (k x : Z) (w : world R) :
  k <= 0 -> (64 <= fuel)%nat -> carmichael_count w < 2 ^ 63 ->
  exists b : bool,
    classify_candidate fuel k x w
    = Ok tt (add_row {| row_n := x;
                        row_bit_len := (if x =? 0 then 1 else 64 - clzll x);
                        row_is_prime := 1; row_witness := None;
                        row_is_really_prime := (if b then 0 else 1) |}
               (add_call (EvLookup x) w)) /\
    (b = true -> In x (carmichael_list w)).
Proof.
  intros Hk Hfuel Hlen.
  destruct (is_carmichael_spec fuel x w Hfuel Hlen) as (b & Hb & Hsound & _).
  exists b. split; [|exact Hsound].
  unfold classify_candidate, fermat_test_gmp.
  replace (Z.to_nat k) with 0%nat by lia.
  cbn [fermat_test_loop]. unfold bind, ret. cbn [Z.eqb negb].
  rewrite Hb. reflexivity.
Qed.

Lemma no_trials_everything_probably_prime_witness :
  exists b : bool,
    classify_candidate 64 0 0 (initial_world [5])
    = Ok tt (add_row {| row_n := 0;
                        row_bit_len := (if 0 =? 0 then 1 else 64 - clzll 0);
                        row_is_prime := 1; row_witness := None;
                        row_is_really_prime := (if b then 0 else 1) |}
               (add_call (EvLookup 0) (initial_world [5]))) /\
    (b = true -> In 0 (carmichael_list (initial_world [5]))).
Proof.
  apply (no_trials_everything_probably_prime 64 0 0 (initial_world [5]));
    [lia | lia | reflexivity].
Defined.

(** X10 -- The candidate 0 crashes the program.  With at least one trial,
    the first sampler call on the modulus 0 makes [mpz_urandomm] divide by
    zero before anything is drawn: the classification stops with GMP's trap
    and writes no row. *)
Theorem candidate_zero_traps {R} {RS : RandState R}
    (fuel : nat) (k : Z) (w : world R) :
  (0 < fuel)%nat -> 0 < k ->
  classify_candidate fuel k 0 w = Stop DivByZero (add_call (EvSample 0) w).
Proof.
  intros Hfuel Hk. unfold classify_candidate, fermat_test_gmp.
  destruct (Z.to_nat k) as [|it] eqn:Hit; [lia|].
  destruct fuel as [|f]; [lia|].
  unfold bind at 1. rewrite fermat_test_loop_S.
  unfold generate_random_coprime, bind at 1 2, log_call.
  rewrite generate_random_coprime_loop_S. reflexivity.
Qed.

Lemma candidate_zero_traps_witness :
  classify_candidate 1 16 0 (initial_world [7])
  = Stop DivByZero (add_call (EvSample 0) (initial_world [7])).
Proof.
  apply (candidate_zero_traps 1 16 (initial_world [7])); lia.
Defined.

(** X11 -- The degenerate candidates get the right verdict all the same.
    With at least one trial, whatever the generator draws, a test of 1 that
    returns gives verdict 0 with the witness 2 (the only base the sampler
    can produce for the modulus 1), and a test of 2 or of 3 that returns
    gives verdict 1. *)
Theorem small_candidates_verdicts {R} {RS : RandState R}
    (fuel : nat) (n k v a : Z) (w w' : world R) :
  0 < k -> 1 <= n <= 3 ->
  fermat_test_gmp fuel n k w = Ok (v, a) w' ->
  (n = 1 -> v = 0 /\ a = 2) /\ (n = 2 \/ n = 3 -> v = 1 /\ a = 0).
Proof.
  intros Hk Hn Hrun. unfold fermat_test_gmp in Hrun.
  assert (Hc : n = 1 \/ n = 2 \/ n = 3) by lia.
  destruct Hc as [->|[->| ->]].
  - split; [|lia]. intros _.
    destruct (fermat_test_gmp_1 fuel k w) as (w1 & H1 & _);
      [destruct fuel; [|lia] | exact Hk |].
    + destruct (Z.to_nat k) as [|it] eqn:Hit; [lia|].
      rewrite fermat_test_loop_S in Hrun. discriminate Hrun.
    + unfold fermat_test_gmp in H1. rewrite H1 in Hrun.
      injection Hrun as <- <- _. split; reflexivity.
  - split; [lia|]. intros _.
    apply (fermat_test_loop_all_pass 2 (2 - 1) fuel (Z.to_nat k) w w' v a);
      [lia | | exact Hrun].
    apply all_bases_pass_spec. vm_compute. reflexivity.
  - split; [lia|]. intros _.
    apply (fermat_test_loop_all_pass 3 (3 - 1) fuel (Z.to_nat k) w w' v a);
      [lia | | exact Hrun].
    apply all_bases_pass_spec. vm_compute. reflexivity.
Qed.

Lemma small_candidates_verdicts_witness :
  (2 = 1 -> 1 = 0 /\ 0 = 2) /\ (2 = 2 \/ 2 = 3 -> 1 = 1 /\ 0 = 0).
Proof.
  apply (small_candidates_verdicts 1 2 3 1 0 (initial_world [1; 1; 1])
           (add_call (EvSample 2) (add_call (EvSample 2)
              (add_call (EvSample 2) (initial_world []))))).
  - lia.
  - lia.
  - vm_compute. reflexivity.
Defined.

(** ** What a run never does: the world only grows *)

Lemma extends_refl {R} (w : world R) : extends w w.
Proof.
  split; [reflexivity|]. split; [exists []; rewrite app_nil_r | exists []];
    reflexivity.
Qed.

Lemma extends_trans {R} (w1 w2 w3 : world R) :
  extends w1 w2 -> extends w2 w3 -> extends w1 w3.
Proof.
  intros (Hl1 & (r1 & Ho1) & (e1 & Hc1)) (Hl2 & (r2 & Ho2) & (e2 & Hc2)).
  split; [congruence|]. split.
  - exists (r1 ++ r2). rewrite Ho2, Ho1, app_assoc. reflexivity.
  - exists (e2 ++ e1). rewrite Hc2, Hc1, app_assoc. reflexivity.
Qed.

Lemma keeps_ret {R A} (a : A) : keeps (@ret (world R) A a).
Proof. intros w. apply extends_refl. Qed.

Lemma keeps_stop {R A} (e : failure) :
  keeps (fun w : world R => @Stop (world R) A e w).
Proof. intros w. apply extends_refl. Qed.

Lemma keeps_bind {R A B} (m : M (world R) A) (f : A -> M (world R) B) :
  keeps m -> (forall a, keeps (f a)) -> keeps (bind m f).
Proof.
  intros Hm Hf w. unfold bind. specialize (Hm w).
  destruct (m w) as [a w1|e w1]; cbn [final] in *; [|exact Hm].
  apply (extends_trans w w1 _ Hm). apply Hf.
Qed.

Lemma keeps_log_call {R} (e : event) : keeps (@log_call R e).
Proof.
  intros w. cbn. split; [reflexivity|].
  split; [exists []; rewrite app_nil_r | exists [e]]; reflexivity.
Qed.

Lemma keeps_emit {R} (r : row) : keeps (@emit R r).
Proof.
  intros w. cbn. split; [reflexivity|].
  split; [exists [r] | exists []]; reflexivity.
Qed.

Lemma keeps_is_carmichael {R} (fuel : nat) (n : Z) :
  keeps (@is_carmichael R fuel n).
Proof.
  unfold is_carmichael. apply keeps_bind; [apply keeps_log_call|].
  intros _ w.
  destruct (is_carmichael_loop _ _ _ _ _) as [[lo|]|]; try apply extends_refl.
  destruct (lo <? _); [|apply extends_refl].
  destruct (array_get _ _); apply extends_refl.
Qed.

Create HintDb keeps.
#[export] Hint Resolve keeps_ret keeps_stop keeps_log_call keeps_emit
  keeps_is_carmichael : keeps.

Section Keeps.

Context {R : Type} {RS : RandState R}.

Lemma keeps_urandomm (n : Z) : keeps (urandomm n).
Proof.
  intros w. unfold urandomm. destruct (n =? 0); [apply extends_refl|].
  destruct (mpz_urandomm (rng w) n) as [b s']. cbn [final].
  split; [reflexivity|].
  split; [exists []; rewrite app_nil_r | exists []]; reflexivity.
Qed.

Lemma keeps_generate_random_coprime_loop (fuel : nat) (n : Z) :
  keeps (generate_random_coprime_loop fuel n).
Proof.
  induction fuel as [|f IH]; cbn [generate_random_coprime_loop].
  - apply keeps_stop.
  - apply keeps_bind; [apply keeps_urandomm|]. intros b. cbv zeta.
    destruct (negb _); [exact IH | apply keeps_ret].
Qed.

Lemma keeps_generate_random_coprime (fuel : nat) (n : Z) :
  keeps (generate_random_coprime fuel n).
Proof.
  unfold generate_random_coprime.
  apply keeps_bind; [apply keeps_log_call|].
  intros _. apply keeps_generate_random_coprime_loop.
Qed.

Lemma keeps_fermat_test_loop (fuel : nat) (n e : Z) (iters : nat) :
  keeps (fermat_test_loop fuel n e iters).
Proof.
  induction iters as [|it IH]; cbn [fermat_test_loop].
  - apply keeps_ret.
  - apply keeps_bind; [apply keeps_generate_random_coprime|]. intros a.
    cbv zeta. destruct (negb _); [apply keeps_ret | exact IH].
Qed.

Lemma keeps_classify_candidate (fuel : nat) (k x : Z) :
  keeps (classify_candidate fuel k x).
Proof.
  unfold classify_candidate, fermat_test_gmp. cbv zeta.
  apply keeps_bind; [apply keeps_fermat_test_loop|]. intros [v a].
  apply keeps_bind.
  - destruct (negb _); [|apply keeps_ret].
    apply keeps_bind; auto with keeps.
  - intros rp. destruct (negb _); apply keeps_emit.
Qed.

End Keeps.

Lemma keeps_scan_chunk {R} (body : Z -> M (world R) unit) :
  (forall x, keeps (body x)) ->
  forall (fuel : nat) (x end_ : Z), keeps (scan_chunk body fuel x end_).
Proof.
  intros Hbody. induction fuel as [|f IH]; intros x end_; cbn [scan_chunk].
  - apply keeps_stop.
  - destruct (x <=? end_); [|apply keeps_ret].
    apply keeps_bind; [apply Hbody | intros _; apply IH].
Qed.

Lemma keeps_scan_range {R} (body : Z -> M (world R) unit) :
  (forall x, keeps (body x)) ->
  forall (fuel : nat) (start MAX_VAL CHUNK : Z),
    keeps (scan_range body fuel start MAX_VAL CHUNK).
Proof.
  intros Hbody. induction fuel as [|f IH]; intros start MAX_VAL CHUNK.
  - apply keeps_stop.
  - cbn [scan_range]. destruct (start <=? MAX_VAL); [|apply keeps_ret].
    cbv zeta. apply keeps_bind; [apply keeps_scan_chunk; exact Hbody|].
    intros _. apply IH.
Qed.

Lemma keeps_for_each {R} (body : Z -> M (world R) unit) :
  (forall x, keeps (body x)) ->
  forall xs : list Z, keeps (for_each body xs).
Proof.
  intros Hbody. induction xs as [|x xs IH]; cbn [for_each].
  - apply keeps_ret.
  - apply keeps_bind; [apply Hbody | intros _; exact IH].
Qed.

(** X12 -- The scan is append-only and leaves the Carmichael list alone.
    For every range, chunk size, trial count and generator, and however the
    run ends (it returns, GMP traps, or it is still running), the world at
    the end has the Carmichael list of the start, the rows of the start
    followed by new rows, and the calls of the start preceded by new
    calls. *)
Theorem main_loop_only_extends {R} {RS : RandState R}
    (fuel : nat) (k low MAX_VAL CHUNK : Z) (w : world R) :
  carmichael_list (final (main_loop fuel k low MAX_VAL CHUNK w))
    = carmichael_list w /\
  (exists rows,
     out (final (main_loop fuel k low MAX_VAL CHUNK w)) = out w ++ rows) /\
  (exists evs,
     calls (final (main_loop fuel k low MAX_VAL CHUNK w)) = evs ++ calls w).
Proof.
  unfold main_loop.
  apply (keeps_scan_range (classify_candidate fuel k)
           (keeps_classify_candidate fuel k) fuel low MAX_VAL CHUNK w).
Qed.

(** ** Composing scans, and [main] as a whole *)

(** X13 -- A scan can be cut anywhere and resumed.  Without 64-bit
    wrap-around, scanning [low .. high] is the same run as scanning
    [low .. mid] and then, from the world this leaves, [mid+1 .. high];
    the three scans may use three different chunk sizes. *)
Theorem scan_resumes {R} {RS : RandState R}
    (fuel : nat) (k low mid high c c1 c2 : Z) (w : world R) :
  0 <= low -> low <= mid -> mid <= high ->
  0 < c -> 0 < c1 -> 0 < c2 ->
  high + c < 2 ^ 64 -> mid + c1 < 2 ^ 64 -> high + c2 < 2 ^ 64 ->
  high - low + 1 < Z.of_nat fuel ->
  main_loop fuel k low high c w
  = bind (main_loop fuel k low mid c1)
      (fun _ => main_loop fuel k (mid + 1) high c2) w.
Proof.
  intros Hlow Hlm Hmh Hc Hc1 Hc2 Hw Hw1 Hw2 Hfuel.
  unfold main_loop, bind.
  rewrite (scan_range_for_each (classify_candidate fuel k) high c Hc Hw)
    by lia.
  rewrite (scan_range_for_each (classify_candidate fuel k) mid c1 Hc1 Hw1)
    by lia.
  rewrite (candidates_app mid high (Z.to_nat (mid + 1 - low)) low) by lia.
  rewrite for_each_app. unfold bind.
  destruct (for_each (classify_candidate fuel k) (candidates low mid) w)
    as [[] w1|e w1]; [|reflexivity].
  rewrite (scan_range_for_each (classify_candidate fuel k) high c2 Hc2 Hw2)
    by lia.
  reflexivity.
Qed.

Lemma scan_resumes_witness :
  main_loop 64 5 1 10 1000000 (initial_world (repeat 2519 40))
  = bind (main_loop 64 5 1 4 3)
      (fun _ => main_loop 64 5 (4 + 1) 10 2) (initial_world (repeat 2519 40)).
Proof.
  apply (scan_resumes 64 5 1 4 10 1000000 3 2 (initial_world (repeat 2519 40)));
    lia.
Defined.

Section ScanReturns.

Context {W : Type}.
Variable body : Z -> M W unit.

(** A chunk that returns has made its whole pass, whatever the fuel was. *)
Lemma scan_chunk_returns (end_ : Z) :
  end_ < 2 ^ 64 - 1 ->
  forall (fuel : nat) (x : Z) (w w' : W),
    0 <= x -> x <= end_ + 1 ->
    scan_chunk body fuel x end_ w = Ok tt w' ->
    for_each body (candidates x end_) w = Ok tt w'.
Proof.
  intros Hend. induction fuel as [|f IH]; intros x w w' Hx Hxe Hrun;
    [discriminate Hrun|].
  rewrite scan_chunk_S in Hrun. destruct (Z.leb_spec x end_) as [Hle|Hgt].
  - rewrite candidates_cons by exact Hle. cbn [for_each].
    unfold bind in *. destruct (body x w) as [[] w1|e w1]; [|discriminate Hrun].
    rewrite u64_small in Hrun by lia. apply (IH (x + 1)); [lia | lia | exact Hrun].
  - rewrite candidates_nil by lia. exact Hrun.
Qed.

Lemma scan_range_returns (MAX_VAL CHUNK : Z) :
  0 < CHUNK -> MAX_VAL + CHUNK < 2 ^ 64 ->
  forall (fuel : nat) (start : Z) (w w' : W),
    0 <= start -> start <= MAX_VAL + CHUNK ->
    scan_range body fuel start MAX_VAL CHUNK w = Ok tt w' ->
    for_each body (candidates start MAX_VAL) w = Ok tt w'.
Proof.
  intros Hchunk Hmax. induction fuel as [|f IH];
    intros start w w' Hstart Hbound Hrun; [discriminate Hrun|].
  rewrite scan_range_S in Hrun. destruct (Z.leb_spec start MAX_VAL) as [Hle|Hgt].
  - rewrite (u64_small (start + CHUNK - 1)), (u64_small (start + CHUNK))
      in Hrun by lia.
    set (end_ := if start + CHUNK - 1 >? MAX_VAL then MAX_VAL
                 else start + CHUNK - 1) in Hrun.
    assert (Hend : start <= end_ <= MAX_VAL /\
                   (end_ = start + CHUNK - 1 \/
                    (end_ = MAX_VAL /\ MAX_VAL < start + CHUNK))).
    { subst end_. destruct (Z.gtb_spec (start + CHUNK - 1) MAX_VAL); lia. }
    assert (Hsplit : candidates start MAX_VAL
                     = candidates start end_ ++ candidates (start + CHUNK) MAX_VAL).
    { destruct Hend as (Hse & [He | (He & Hover)]).
      - rewrite (candidates_app end_ MAX_VAL (Z.to_nat (end_ + 1 - start)) start)
          by lia.
        replace (end_ + 1) with (start + CHUNK) by lia. reflexivity.
      - rewrite (candidates_nil (start + CHUNK) MAX_VAL) by lia.
        rewrite app_nil_r, He. reflexivity. }
    rewrite Hsplit, for_each_app.
    apply bind_Ok in Hrun. destruct Hrun as ([] & w1 & Hchunk1 & Hrest).
    apply scan_chunk_returns in Hchunk1; [|lia ..].
    rewrite (bind_eq_Ok _ _ _ _ _ Hchunk1).
    apply (IH (start + CHUNK)); [lia | lia | exact Hrest].
  - rewrite candidates_nil by lia. exact Hrun.
Qed.

End ScanReturns.

(** X14 -- What a run of [main] that returns has done, at start-up.  The
    Carmichael file could be opened and the list is its leading values up to
    [2^32 - 1]; then either [results.csv] could not be opened, the status is
    1 and nothing else happened (no row, no call), or the status is 0 and
    the rows written are those of one ascending pass over [1 .. 2^32 - 1],
    started on the seeded generator with the loaded list. *)
Theorem main_returns {R} {RS : RandState R}
    (fuel : nat) (file : option (list Z)) (results_ok : bool) (seeded : R)
    (st : Z) (w w' : world R) :
  carmichael_list w = [] ->
  main fuel file results_ok seeded w = Ok st w' ->
  exists stream,
    file = Some stream /\
    carmichael_list w' = prefix_upto (2 ^ 32 - 1) stream /\
    ((results_ok = false /\ st = 1 /\
      w' = set_rng seeded
             (set_carmichael_list (prefix_upto (2 ^ 32 - 1) stream) w)) \/
     (results_ok = true /\ st = 0 /\
      unchunked_scan (classify_candidate fuel 16) 1 (2 ^ 32 - 1)
        (set_rng seeded
           (set_carmichael_list (prefix_upto (2 ^ 32 - 1) stream) w))
      = Ok tt w' /\
      exists rows, out w' = out w ++ rows /\
                   map row_n rows = candidates 1 (2 ^ 32 - 1))).
Proof.
  intros Hw Hrun. unfold main in Hrun.
  change (u64 (u64 (Z.shiftl 1 32) - 1)) with (2 ^ 32 - 1) in Hrun.
  cbv zeta in Hrun.
  apply bind_Ok in Hrun. destruct Hrun as ([] & w1 & Hload & Hrun).
  destruct file as [stream|]; [|discriminate Hload].
  exists stream. split; [reflexivity|].
  unfold load_carmichael in Hload. rewrite load_loop_prefix, Hw in Hload.
  rewrite app_nil_l in Hload.
  assert (Hw1 : w1 = set_carmichael_list (prefix_upto (2 ^ 32 - 1) stream) w)
    by congruence.
  subst w1. clear Hload.
  apply bind_Ok in Hrun. destruct Hrun as ([] & w2 & Hinit & Hrun).
  unfold init_rng in Hinit.
  assert (Hw2 : w2 = set_rng seeded
                       (set_carmichael_list (prefix_upto (2 ^ 32 - 1) stream) w))
    by congruence.
  subst w2. clear Hinit.
  destruct results_ok; cbn [negb] in Hrun.
  - apply bind_Ok in Hrun. destruct Hrun as ([] & w3 & Hscan & Hret).
    unfold ret in Hret. injection Hret as <- <-.
    unfold main_loop in Hscan.
    apply scan_range_returns in Hscan; [|lia ..].
    pose proof (keeps_for_each (classify_candidate fuel 16)
                  (keeps_classify_candidate fuel 16)
                  (candidates 1 (2 ^ 32 - 1))
                  (set_rng seeded
                     (set_carmichael_list (prefix_upto (2 ^ 32 - 1) stream) w)))
      as (Hl & _).
    rewrite Hscan in Hl. cbn [final] in Hl.
    split; [exact Hl|]. right.
    split; [reflexivity|]. split; [reflexivity|]. split; [exact Hscan|].
    apply (for_each_classify_rows fuel 16 _ _ _ Hscan).
  - unfold ret in Hrun. injection Hrun as <- <-.
    split; [reflexivity|]. left. repeat split.
Qed.

Lemma main_returns_witness :
  exists stream,
    Some [561; 1105; 8589934592] = Some stream /\
    carmichael_list
      (set_rng [7] (set_carmichael_list [561; 1105] (initial_world [])))
    = prefix_upto (2 ^ 32 - 1) stream /\
    ((false = false /\ 1 = 1 /\
      set_rng [7] (set_carmichael_list [561; 1105] (initial_world []))
      = set_rng [7]
          (set_carmichael_list (prefix_upto (2 ^ 32 - 1) stream)
             (initial_world []))) \/
     (false = true /\ 1 = 0 /\
      unchunked_scan (classify_candidate 1 16) 1 (2 ^ 32 - 1)
        (set_rng [7]
           (set_carmichael_list (prefix_upto (2 ^ 32 - 1) stream)
              (initial_world [])))
      = Ok tt (set_rng [7] (set_carmichael_list [561; 1105] (initial_world []))) /\
      exists rows,
        out (set_rng [7] (set_carmichael_list [561; 1105] (initial_world [])))
        = out (initial_world (@nil Z)) ++ rows /\
        map row_n rows = candidates 1 (2 ^ 32 - 1))).
Proof.
  apply (main_returns 1 (Some [561; 1105; 8589934592]) false [7] 1
           (initial_world [])).
  - reflexivity.
  - vm_compute. reflexivity.
Defined.

(** ** The oracle on arrays with repeated values *)

Lemma nondecreasing_tail (x : Z) (t : list Z) :
  nondecreasing (x :: t) = true -> nondecreasing t = true.
Proof.
  destruct t as [|y t']; [reflexivity|].
  cbn [nondecreasing]. intros H. apply andb_true_iff in H. apply H.
Qed.

Lemma nondecreasing_head_le (x : Z) (t : list Z) :
  nondecreasing (x :: t) = true -> forall y, In y t -> x <= y.
Proof.
  revert x. induction t as [|z t IH]; intros x H y Hy.
  - destruct Hy.
  - cbn [nondecreasing] in H. apply andb_true_iff in H. destruct H as [Hxz Ht].
    apply Z.leb_le in Hxz. destruct Hy as [->|Hy]; [exact Hxz|].
    specialize (IH z Ht y Hy). lia.
Qed.

Lemma nondecreasing_nth (l : list Z) :
  nondecreasing l = true ->
  forall (i j : nat) (a b : Z),
    (i <= j)%nat -> nth_error l i = Some a -> nth_error l j = Some b -> a <= b.
Proof.
  induction l as [|x t IH]; intros Hl i j a b Hij Hi Hj.
  - destruct i; discriminate Hi.
  - destruct i as [|i]; destruct j as [|j]; try lia.
    + cbn in Hi, Hj. assert (a = b) by congruence. lia.
    + injection Hi as <-. apply (nondecreasing_head_le x t Hl).
      apply (nth_error_In t j). exact Hj.
    + apply (IH (nondecreasing_tail x t Hl) i j a b); [lia | exact Hi | exact Hj].
Qed.

(** The loop computes the lower bound of [n] on a nondecreasing array. *)
Lemma is_carmichael_loop_lower_bound_weak (l : list Z) (n : Z) :
  nondecreasing l = true ->
  Z.of_nat (length l) < 2 ^ 63 ->
  forall (fuel : nat) (lo hi r : Z),
    0 <= lo -> lo <= hi -> hi <= Z.of_nat (length l) ->
    (forall i v, Z.of_nat i < lo -> nth_error l i = Some v -> v < n) ->
    (forall i v, hi <= Z.of_nat i -> nth_error l i = Some v -> n <= v) ->
    is_carmichael_loop fuel l n lo hi = Some (Some r) ->
    (forall i v, Z.of_nat i < r -> nth_error l i = Some v -> v < n) /\
    (forall i v, r <= Z.of_nat i -> nth_error l i = Some v -> n <= v).
Proof.
  intros Hnd Hlen. induction fuel as [|f IH];
    intros lo hi r Hlo Hle Hhi Hbelow Habove Hrun; [discriminate Hrun|].
  rewrite is_carmichael_loop_S in Hrun.
  destruct (Z.ltb_spec lo hi) as [Hlt|Hge].
  - destruct (midpoint_exact _ lo hi Hlo Hlt Hhi Hlen) as (Hmid & Hhalf & Hsucc).
    set (mid := Z.shiftr (u64 (lo + hi)) 1) in *.
    rewrite array_get_nonneg in Hrun by lia.
    destruct (nth_error l (Z.to_nat mid)) as [v|] eqn:Hv; [|discriminate Hrun].
    destruct (Z.ltb_spec v n) as [Hvn|Hvn].
    + rewrite Hsucc in Hrun.
      apply (IH (mid + 1) hi r); try lia; try assumption.
      intros i u Hi Hu. assert (u <= v); [|lia].
      apply (nondecreasing_nth l Hnd i (Z.to_nat mid)); [lia | exact Hu | exact Hv].
    + apply (IH lo mid r); try lia; try assumption.
      intros i u Hi Hu. assert (v <= u); [|lia].
      apply (nondecreasing_nth l Hnd (Z.to_nat mid) i); [lia | exact Hv | exact Hu].
  - injection Hrun as <-. split.
    + intros i v Hi Hv. apply (Hbelow i v); [lia | exact Hv].
    + intros i v Hi Hv. apply (Habove i v); [lia | exact Hv].
Qed.

(** X15 -- Repeated values in the Carmichael file do no harm.  On an array
    that is merely nondecreasing, with fewer than [2^63] elements,
    [is_carmichael] returns, and it answers [true] exactly for the values
    that occur in the array. *)
Theorem is_carmichael_with_duplicates {R} (fuel : nat) (n : Z) (w : world R) :
  (64 <= fuel)%nat -> carmichael_count w < 2 ^ 63 ->
  nondecreasing (carmichael_list w) = true ->
  exists b,
    is_carmichael fuel n w = Ok b (add_call (EvLookup n) w) /\
    (b = true <-> In n (carmichael_list w)).
Proof.
  intros Hfuel Hlen Hnd.
  destruct (is_carmichael_spec fuel n w Hfuel Hlen) as (b & Hrun & Hsound & _).
  exists b. split; [exact Hrun|]. split; [exact Hsound|].
  intros Hmem. revert Hrun. unfold is_carmichael, bind, log_call.
  change (carmichael_list (add_call (EvLookup n) w)) with (carmichael_list w).
  change (carmichael_count (add_call (EvLookup n) w)) with (carmichael_count w).
  unfold carmichael_count in *. set (l := carmichael_list w) in *.
  destruct (is_carmichael_loop fuel l n 0 (Z.of_nat (length l)))
    as [[r|]|] eqn:Hr; try discriminate.
  assert (H0 : forall (i : nat) (u : Z),
             Z.of_nat i < 0 -> nth_error l i = Some u -> u < n) by (intros; lia).
  assert (Hend : forall (i : nat) (u : Z),
             Z.of_nat (length l) <= Z.of_nat i -> nth_error l i = Some u -> n <= u).
  { intros i u Hi Hu. assert (nth_error l i <> None) as Hs by congruence.
    apply nth_error_Some in Hs. lia. }
  destruct (is_carmichael_loop_lower_bound_weak l n Hnd Hlen fuel 0
              (Z.of_nat (length l)) r) as (Hbelow & Habove);
    [lia | lia | lia | exact H0 | exact Hend | exact Hr |].
  apply In_nth_error in Hmem. destruct Hmem as (i & Hi).
  assert (Hilen : (i < length l)%nat).
  { apply nth_error_Some. congruence. }
  assert (Hri : r <= Z.of_nat i).
  { destruct (Z_lt_le_dec (Z.of_nat i) r) as [Hlt|Hle]; [|exact Hle].
    specialize (Hbelow i n Hlt Hi). lia. }
  assert (Hr0 : 0 <= r).
  { destruct fuel as [|f]; [lia|].
    assert (Hpow : 2 ^ 63 <= 2 ^ Z.of_nat f) by (apply Z.pow_le_mono_r; lia).
    destruct (is_carmichael_loop_total l n Hlen f 0 (Z.of_nat (length l)))
      as (r' & Hr' & Hb'); [lia .. |].
    rewrite Hr in Hr'. injection Hr' as <-. lia. }
  destruct (Z.ltb_spec r (Z.of_nat (length l))) as [Hin|Hout]; [|lia].
  rewrite array_get_nonneg by lia.
  destruct (nth_error l (Z.to_nat r)) as [v|] eqn:Hv.
  - intros Hrun. injection Hrun as <-. apply Z.eqb_eq.
    assert (n <= v) by (apply (Habove (Z.to_nat r) v); [lia | exact Hv]).
    assert (v <= n).
    { apply (nondecreasing_nth l Hnd (Z.to_nat r) i); [lia | exact Hv | exact Hi]. }
    lia.
  - apply nth_error_None in Hv. lia.
Qed.

Lemma is_carmichael_with_duplicates_witness :
  exists b,
    is_carmichael 64 1105
      {| rng := tt; carmichael_list := [561; 1105; 1105; 1729]; out := [];
         calls := [] |}
    = Ok b (add_call (EvLookup 1105)
              {| rng := tt; carmichael_list := [561; 1105; 1105; 1729];
                 out := []; calls := [] |}) /\
    (b = true <-> In 1105 [561; 1105; 1105; 1729]).
Proof.
  apply (is_carmichael_with_duplicates 64 1105
           {| rng := tt; carmichael_list := [561; 1105; 1105; 1729]; out := [];
              calls := [] |}); [lia | reflexivity | reflexivity].
Defined.

(** ** The base [n - 1] *)

Lemma gcd_pred_self (n : Z) : Z.gcd (n - 1) n = 1.
Proof.
  replace n with (1 + (n - 1)) at 2 by lia.
  rewrite Z.gcd_add_diag_r. apply Z.gcd_1_r.
Qed.

Lemma pred_power_odd_modulus (n : Z) :
  3 <= n -> Z.odd n = true -> mpz_powm (n - 1) (n - 1) n = 1.
Proof.
  intros Hn Hodd. unfold mpz_powm.
  destruct (Zeven_ex (n - 1)) as (m & Hm).
  { apply Zeven_bool_iff. rewrite Z.even_sub. cbn.
    rewrite <- Z.negb_odd, Hodd. reflexivity. }
  rewrite Hm at 2. rewrite Z.pow_mul_r by lia.
  rewrite <- Z.mod_pow_l.
  replace ((n - 1) ^ 2 mod n) with 1.
  - rewrite Z.pow_1_l by lia. apply Z.mod_small. lia.
  - apply (Z.mod_unique _ _ (n - 2)); [left; lia | ring].
Qed.

(** X16 -- The base [n - 1], which the sampler hands out, can never expose
    an odd [n]: for every odd [n >= 3], prime or not, if the generator draws
    [n - 1] at each trial the test makes its [k] trials and returns verdict
    1 with the witness cleared. *)
Theorem base_pred_always_passes {R} {RS : RandState R}
    (fuel : nat) (n k : Z) (w : world R) :
  3 <= n -> Z.odd n = true -> (0 < fuel)%nat ->
  (forall s : R, fst (mpz_urandomm s n) = n - 1) ->
  exists w', fermat_test_gmp fuel n k w = Ok (1, 0) w'.
Proof.
  intros Hn Hodd Hfuel Hdraw. unfold fermat_test_gmp.
  destruct fuel as [|f]; [lia|]. clear Hfuel.
  generalize (Z.to_nat k) as iters. intros iters. revert w.
  induction iters as [|it IH]; intros w.
  - exists w. reflexivity.
  - rewrite fermat_test_loop_S.
    unfold generate_random_coprime, bind at 1 2, log_call.
    rewrite generate_random_coprime_loop_S. unfold bind at 1, urandomm.
    destruct (Z.eqb_spec n 0) as [->|_]; [lia|].
    specialize (Hdraw (rng (add_call (EvSample n) w))).
    destruct (mpz_urandomm (rng (add_call (EvSample n) w)) n) as [r s'].
    cbn [fst] in Hdraw. subst r. cbv zeta.
    destruct (Z.ltb_spec (n - 1) 2); [lia|].
    destruct (Z.geb_spec (n - 1) n); [lia|].
    rewrite gcd_pred_self. cbn [Z.eqb Pos.eqb negb]. unfold ret.
    rewrite (pred_power_odd_modulus n Hn Hodd). cbn [Z.eqb Pos.eqb negb].
    apply IH.
Qed.

Lemma base_pred_always_passes_witness :
  exists w', fermat_test_gmp 1 15 16 (initial_world tt) = Ok (1, 0) w'.
Proof.
  apply (base_pred_always_passes 1 15 16 (initial_world tt)).
  - lia.
  - reflexivity.
  - lia.
  - intros s. reflexivity.
Defined.
